(** * Safe Travels: the anonymous safety-report store

    A shallow embedding of [safe-travels-backend/data/safetyReports.js]
    (the report store) and of the submit guard of
    [components/SafetyReportModal.js], together with the validator, the
    rate limiter and the ingestion endpoint of [server.js], which the
    storage module is driven by.

    JavaScript values are an inductive type, exceptions an error monad,
    the reports file an explicit value threaded through every operation,
    and the clock, the random source and the outcome of the file write are
    inputs of each call. *)

From Stdlib Require Import PrimFloat.
From Stdlib Require Import Bool List Ascii String NArith ZArith Lia.
From Stdlib Require Import DecimalString DecimalN Sorted.
From stdpp Require Import base option strings gmap.
Import ListNotations.

Set Warnings "-register-all,-inexact-float".
Local Open Scope string_scope.
Local Open Scope bool_scope.

(** ** JavaScript values and the fragment of the language the store uses *)

Module Js.

(** A value as the store sees it: what [JSON.parse] can return, plus
    [undefined], which property reads produce. An object is its list of
    own properties in insertion order. *)
Inductive value : Type :=
| VUndefined
| VNull
| VBool (b : bool)
| VNum (x : float)
| VStr (s : string)
| VArr (items : list value)
| VObj (props : list (string * value)).

Inductive exn : Type := TypeError | SyntaxError | IOError.

(** A computation that returns or throws. *)
Inductive result (A : Type) : Type :=
| Ok (a : A)
| Throw (e : exn).
Arguments Ok {A} a.
Arguments Throw {A} e.

Definition bind {A B} (c : result A) (k : A -> result B) : result B :=
  match c with
  | Ok a => k a
  | Throw e => Throw e
  end.

Notation "'do' x <- c ; k" := (bind c (fun x => k))
  (at level 10, x name, c at level 100, k at level 200).

(** [try { body } catch (error) { handler }] *)
Definition try_catch {A} (body : result A) (handler : exn -> result A) : result A :=
  match body with
  | Ok a => Ok a
  | Throw e => handler e
  end.

(** [ToBoolean]: [undefined], [null], [false], [0], [-0], [NaN] and the
    empty string are falsy, everything else is truthy. *)
Definition truthy (v : value) : bool :=
  match v with
  | VUndefined | VNull => false
  | VBool b => b
  | VNum x => negb (is_zero x || is_nan x)
  | VStr s => negb (s =? "")
  | VArr _ | VObj _ => true
  end.

(** [a || b] *)
Definition js_or (a b : value) : value := if truthy a then a else b.

Fixpoint lookup_prop (k : string) (props : list (string * value)) : value :=
  match props with
  | [] => VUndefined
  | (k', v) :: rest => if k' =? k then v else lookup_prop k rest
  end.

(** [o.k] for a property name that no prototype defines: a [TypeError] on
    [undefined] and [null], the own property of an object, and
    [undefined] on every other value. *)
Definition get (o : value) (k : string) : result value :=
  match o with
  | VUndefined | VNull => Throw TypeError
  | VObj props => Ok (lookup_prop k props)
  | _ => Ok VUndefined
  end.

(** The same read where the receiver is known not to be [undefined] or
    [null]. *)
Definition prop (o : value) (k : string) : value :=
  match get o k with
  | Ok v => v
  | Throw _ => VUndefined
  end.

(** [reports.push(x)] on a value read back from the file: only an array has
    the method. The array after the call is returned. *)
Definition push (arr x : value) : result value :=
  match arr with
  | VArr items => Ok (VArr (items ++ [x]))
  | _ => Throw TypeError
  end.

(** The receiver of [reports.filter(...)]. *)
Definition as_array (v : value) : result (list value) :=
  match v with
  | VArr items => Ok items
  | _ => Throw TypeError
  end.

(** [items.filter(cb)] where the callback may throw: the first exception
    aborts the traversal. *)
Fixpoint filterM (cb : value -> result bool) (items : list value)
  : result (list value) :=
  match items with
  | [] => Ok []
  | r :: rest =>
      do keep <- cb r;
      do kept <- filterM cb rest;
      Ok (if keep then r :: kept else kept)
  end.

Definition char_at (s : string) (i : nat) : value :=
  match String.get i s with
  | Some c => VStr (String c EmptyString)
  | None => VUndefined
  end.

(** [const [a, b] = v]: arrays and strings are iterable, the other values
    of this type are not. *)
Definition destructure2 (v : value) : result (value * value) :=
  match v with
  | VArr items => Ok (nth 0 items VUndefined, nth 1 items VUndefined)
  | VStr s => Ok (char_at s 0, char_at s 1)
  | _ => Throw TypeError
  end.

(** Relational comparison. Two strings compare by code units, two numbers
    as IEEE doubles ([NaN] compares false), [undefined] compares false with
    everything. The remaining mixed cases go through [ToPrimitive] and
    [ToNumber], which this development keeps as a parameter [coerced]. *)
Inductive relop : Type := Ge | Le.

Section Compare.
Variable coerced : relop -> value -> value -> bool.

Definition compare_values (op : relop) (a b : value) : bool :=
  match a, b with
  | VUndefined, _ | _, VUndefined => false
  | VStr s, VStr t =>
      match op with Ge => String.leb t s | Le => String.leb s t end
  | VNum x, VNum y =>
      match op with Ge => PrimFloat.leb y x | Le => PrimFloat.leb x y end
  | _, _ => coerced op a b
  end.

(** [a >= b] and [a <= b] *)
Definition js_ge := compare_values Ge.
Definition js_le := compare_values Le.
End Compare.

(** *** Values that survive [JSON.parse(JSON.stringify(v))]

    [JSON.stringify] drops [undefined] properties, prints [NaN] and the
    infinities as [null] and [-0] as [0]; [JSON.parse] keeps the last of two
    equal keys and moves keys that look like array indices to the front.
    Values free of all these come back as they went in. *)
Definition is_digit (c : ascii) : bool :=
  (48 <=? N_of_ascii c)%N && (N_of_ascii c <=? 57)%N.

Definition index_like (k : string) : bool :=
  negb (k =? "") && forallb is_digit (list_ascii_of_string k).

Fixpoint distinct (keys : list string) : bool :=
  match keys with
  | [] => true
  | k :: rest => negb (existsb (String.eqb k) rest) && distinct rest
  end.

Definition json_number (x : float) : bool :=
  is_finite x && negb (is_zero x && get_sign x).

Fixpoint json_safe (v : value) : bool :=
  match v with
  | VUndefined => false
  | VNull | VBool _ | VStr _ => true
  | VNum x => json_number x
  | VArr items => forallb json_safe items
  | VObj props =>
      forallb (fun kv => json_safe (snd kv)) props
      && distinct (map fst props)
      && forallb (fun kv => negb (index_like (fst kv))) props
  end.

End Js.

(** ** The clock: [Date.now()] and [new Date().toISOString()] *)

Module Clock.

Local Open Scope N_scope.

(** A calendar day of the proleptic Gregorian calendar. *)
Record date : Type := Date { year : N; month : N; day : N }.

Definition is_leap (y : N) : bool :=
  (y mod 4 =? 0) && (negb (y mod 100 =? 0) || (y mod 400 =? 0)).

Definition days_in_month (y m : N) : N :=
  if m =? 2 then (if is_leap y then 29 else 28)
  else if (m =? 4) || (m =? 6) || (m =? 9) || (m =? 11) then 30
  else 31.

Definition next_day (d : date) : date :=
  if day d <? days_in_month (year d) (month d)
  then Date (year d) (month d) (day d + 1)
  else if month d <? 12
       then Date (year d) (month d + 1) 1
       else Date (year d + 1) 1 1.

Definition epoch : date := Date 1970 1 1.

(** The day that lies [n] days after 1 January 1970. *)
Definition civil_of_days (n : N) : date := N.iter n next_day epoch.

Definition digit (n : N) : ascii := ascii_of_N (48 + n mod 10).

(** [n] in decimal, padded with zeros to exactly [w] digits. *)
Fixpoint digits (w : nat) (n : N) : string :=
  match w with
  | O => EmptyString
  | S w' => (digits w' (n / 10) ++ String (digit n) EmptyString)%string
  end.

Definition ms_per_day : N := 86400000.

(** Years 0 to 9999 print with four digits, later ones in the expanded
    form with a sign and six digits. *)
Definition year_string (y : N) : string :=
  if y <=? 9999 then digits 4 y else ("+" ++ digits 6 y)%string.

Definition year_of (t : N) : N := year (civil_of_days (t / ms_per_day)).

(** [new Date(t).toISOString()] for a time [t] in milliseconds since the
    epoch, as [Date.now()] reads it. *)
Definition toISOString (t : N) : string :=
  let d := civil_of_days (t / ms_per_day) in
  let r := t mod ms_per_day in
  (year_string (year d) ++ "-" ++ digits 2 (month d) ++ "-" ++ digits 2 (day d)
   ++ "T" ++ digits 2 (r / 3600000) ++ ":" ++ digits 2 (r / 60000 mod 60)
   ++ ":" ++ digits 2 (r / 1000 mod 60) ++ "." ++ digits 3 (r mod 1000)
   ++ "Z")%string.

(** The order of the calendar: by year, then month, then day. *)
Definition date_compare (a b : date) : comparison :=
  match year a ?= year b with
  | Eq => match month a ?= month b with
          | Eq => day a ?= day b
          | o => o
          end
  | o => o
  end.

Definition date_lt (a b : date) : Prop :=
  year a < year b
  \/ (year a = year b
      /\ (month a < month b \/ (month a = month b /\ day a < day b))).

(** Month and day fit their two digits. *)
Definition in_calendar (d : date) : Prop := month d <= 12 /\ day d <= 31.

(** [String(n)] for an integer time value. *)
Definition decimal (n : N) : string := NilZero.string_of_uint (N.to_uint n).

End Clock.

(** ** The report store: [safe-travels-backend/data/safetyReports.js] *)

Module Store.
Import Js.

(** Allowed tag values. *)
Definition ALLOWED_TAGS : list string :=
  [ "Harassment"; "Welcoming"; "Police Presence"; "Protest";
    "Crowded"; "Quiet"; "Other" ].

Definition getAllowedTags : list string := ALLOWED_TAGS.

(** The fields of the SafetyReport schema, in the order [createReport]
    writes them. *)
Definition SCHEMA_FIELDS : list string :=
  [ "_id"; "location"; "safetyScore"; "tags"; "comment"; "timestamp" ].

(** What becomes of one [fs.writeFileSync] on the reports file. The call
    opens the file for writing, which truncates it, and then writes: it can
    fail before the file is touched or after it was truncated. *)
Inductive write_outcome (text : Type) : Type :=
| WriteOk                      (* the file now holds the new text *)
| WriteRefused                 (* the write throws, the file is untouched *)
| WriteTorn (residue : text).  (* the write throws after truncating the
                                  file, which is left holding [residue] *)
Arguments WriteOk {text}.
Arguments WriteRefused {text}.
Arguments WriteTorn {text} residue.

Section Runtime.
(** The text of a file, and the two functions of the [JSON] object;
    [JSON_parse] is [None] where [JSON.parse] throws a [SyntaxError], and
    [JSON_stringify v] is [JSON.stringify(v, null, 2)]. *)
Variable text : Type.
Variable JSON_parse : text -> option value.
Variable JSON_stringify : value -> text.
Variable coerced : relop -> value -> value -> bool.

(** The state of [REPORTS_FILE] on the durable medium. *)
Inductive medium : Type :=
| Absent                     (* no such file *)
| Unreadable                 (* the path exists but reading it throws *)
| Content (data : text).

(** What one call of [createReport] reads from its surroundings: the clock
    at [Date.now()], the text of [Math.random().toString(36)], the clock at
    [new Date()], and what becomes of the file write. *)
Record Env : Type := mkEnv {
  now_id : N;
  random36 : string;
  now_ts : N;
  write : write_outcome text
}.

Definition existsSync (m : medium) : bool :=
  match m with Absent => false | _ => true end.

Definition readFileSync (m : medium) : result text :=
  match m with Content data => Ok data | _ => Throw IOError end.

Definition parse (data : text) : result value :=
  match JSON_parse data with Some v => Ok v | None => Throw SyntaxError end.

(** [fs.writeFileSync(REPORTS_FILE, data, 'utf8')] *)
Definition writeFileSync (w : write_outcome text) (data : text) (m : medium)
  : result unit * medium :=
  match w with
  | WriteOk => (Ok tt, Content data)
  | WriteRefused => (Throw IOError, m)
  | WriteTorn residue => (Throw IOError, Content residue)
  end.

(** [loadReports]: the [try] block either returns the parsed file or
    falls through; an exception is logged and falls through as well;
    falling through returns the empty array. *)
Definition loadReports (m : medium) : result value :=
  do returned <-
    try_catch
      (if existsSync m then
         do data <- readFileSync m;
         do v <- parse data;
         Ok (Some v)
       else Ok None)
      (fun _ => Ok None);
  match returned with
  | Some v => Ok v
  | None => Ok (VArr [])
  end.

(** [saveReports]: [true] when the write went through, [false] when it
    threw; the exception itself is swallowed. *)
Definition saveReports (w : write_outcome text) (reports : value) (m : medium)
  : bool * medium :=
  match writeFileSync w (JSON_stringify reports) m with
  | (Ok _, m') => (true, m')
  | (Throw _, m') => (false, m')
  end.

(** [s.substr(start, len)] *)
Definition substr (start len : nat) (s : string) : string :=
  String.substring start len s.

(** [generateReportId] *)
Definition generateReportId (now : N) (random36 : string) : string :=
  ("report_" ++ Clock.decimal now ++ "_" ++ substr 2 9 random36)%string.

(** The object literal [newReport] of [createReport]; reading a property
    of [reportData] throws when [reportData] is [undefined] or [null]. *)
Definition newReport (e : Env) (reportData : value) : result value :=
  let id := generateReportId (now_id e) (random36 e) in
  do longitude <- get reportData "longitude";
  do latitude <- get reportData "latitude";
  do safetyScore <- get reportData "safetyScore";
  do tags <- get reportData "tags";
  do comment <- get reportData "comment";
  Ok (VObj [ ("_id", VStr id);
             ("location",
               VObj [ ("type", VStr "Point");
                      ("coordinates", VArr [longitude; latitude]) ]);
             ("safetyScore", safetyScore);
             ("tags", js_or tags (VArr []));
             ("comment", js_or comment (VStr ""));
             ("timestamp", VStr (Clock.toISOString (now_ts e))) ]).

(** [createReport]. Every exception is raised before the file is written,
    so a call that throws leaves the medium as it was; the value of
    [saveReports] is dropped. *)
Definition createReport (e : Env) (reportData : value) (m : medium)
  : result (value * medium) :=
  do reports <- loadReports m;
  do report <- newReport e reportData;
  do reports' <- push reports report;
  let '(_, m') := saveReports (write e) reports' m in
  Ok (report, m').

(** [getReports(filters = {})]. Without an active bound the loaded value
    is returned as it is. *)
Definition getReports (filters : value) (m : medium) : result value :=
  let filters := match filters with VUndefined => VObj [] | _ => filters end in
  do reports <- loadReports m;
  do minDate <- get filters "minDate";
  do filteredReports <-
    (if truthy minDate then
       do reports <- as_array reports;
       do kept <- filterM (fun r => do ts <- get r "timestamp";
                                    Ok (js_ge coerced ts minDate)) reports;
       Ok (VArr kept)
     else Ok reports);
  do maxDate <- get filters "maxDate";
  do filteredReports <-
    (if truthy maxDate then
       do reports <- as_array filteredReports;
       do kept <- filterM (fun r => do ts <- get r "timestamp";
                                    Ok (js_le coerced ts maxDate)) reports;
       Ok (VArr kept)
     else Ok filteredReports);
  Ok filteredReports.

(** [getReportsInBounds(minLat, maxLat, minLon, maxLon)] *)
Definition getReportsInBounds (minLat maxLat minLon maxLon : value) (m : medium)
  : result (list value) :=
  do reports <- loadReports m;
  do reports <- as_array reports;
  filterM
    (fun report =>
       do location <- get report "location";
       do coordinates <- get location "coordinates";
       do lonlat <- destructure2 coordinates;
       let '(lon, lat) := lonlat in
       Ok (js_ge coerced lat minLat && js_le coerced lat maxLat
           && js_ge coerced lon minLon && js_le coerced lon maxLon))
    reports.

(** *** A sequence of [createReport] calls on one file *)

Record Call : Type := mkCall { call_env : Env; call_data : value }.

Definition step (c : Call) (m : medium) : result value * medium :=
  match createReport (call_env c) (call_data c) m with
  | Ok (report, m') => (Ok report, m')
  | Throw e => (Throw e, m)
  end.

Fixpoint run (calls : list Call) (m : medium) : list (result value) * medium :=
  match calls with
  | [] => ([], m)
  | c :: rest =>
      let '(outcome, m') := step c m in
      let '(outcomes, m'') := run rest m' in
      (outcome :: outcomes, m'')
  end.

(** A write that is not torn, or that is torn into text that does not
    parse (the next [loadReports] then starts from the empty array). *)
Definition intact (w : write_outcome text) : bool :=
  match w with
  | WriteTorn residue =>
      match JSON_parse residue with None => true | Some _ => false end
  | _ => true
  end.

(** The array a call leaves for the next [loadReports], for an [intact]
    write. *)
Definition log_after (w : write_outcome text) (items : list value) (r : value)
  : list value :=
  match w with
  | WriteOk => items ++ [r]
  | WriteRefused => items
  | WriteTorn _ => []
  end.

(** The array the file holds after a sequence of calls that started from
    the array [items]. *)
Fixpoint persisted (calls : list Call) (items : list value) : list value :=
  match calls with
  | [] => items
  | c :: rest =>
      persisted rest
        (match newReport (call_env c) (call_data c) with
         | Ok r => log_after (write (call_env c)) items r
         | Throw _ => items
         end)
  end.

(** [JSON.parse] undoes [JSON.stringify] on the values that survive the
    trip. *)
Definition faithful : Prop :=
  forall v, json_safe v = true -> JSON_parse (JSON_stringify v) = Some v.
End Runtime.

Arguments Absent {text}.
Arguments Unreadable {text}.
Arguments Content {text} data.
Arguments mkEnv {text} now_id random36 now_ts write.
Arguments now_id {text} e.
Arguments random36 {text} e.
Arguments now_ts {text} e.
Arguments write {text} e.
Arguments mkCall {text} call_env call_data.
Arguments call_env {text} c.
Arguments call_data {text} c.

(** The reports among the outcomes of a run. *)
Fixpoint returned (outcomes : list (result value)) : list value :=
  match outcomes with
  | [] => []
  | Ok r :: rest => r :: returned rest
  | Throw _ :: rest => returned rest
  end.

(** The names of the own properties of an object. *)
Definition fields_of (v : value) : list string :=
  match v with
  | VObj props => map fst props
  | _ => []
  end.

(** The properties of [reportData] that [createReport] reads. *)
Definition DATA_FIELDS : list string :=
  [ "longitude"; "latitude"; "safetyScore"; "tags"; "comment" ].

(** Report data whose five fields, after the defaults for [tags] and
    [comment], survive the trip through the file. *)
Definition storable (reportData : value) : bool :=
  match reportData with
  | VObj props =>
      json_safe (lookup_prop "longitude" props)
      && json_safe (lookup_prop "latitude" props)
      && json_safe (lookup_prop "safetyScore" props)
      && json_safe (js_or (lookup_prop "tags" props) (VArr []))
      && json_safe (js_or (lookup_prop "comment" props) (VStr ""))
  | _ => false
  end.

(** A reference runtime: a file is either the serialisation of a value or
    text that does not parse; mixed comparisons are [false]. *)
Module Ref.
Definition text : Type := option value.
Definition JSON_parse (t : text) : option value := t.
Definition JSON_stringify (v : value) : text := Some v.
Definition coerced (_ : relop) (_ _ : value) : bool := false.
Definition loadReports := loadReports text JSON_parse.
Definition createReport := createReport text JSON_parse JSON_stringify.
Definition getReports := getReports text JSON_parse coerced.
Definition getReportsInBounds := getReportsInBounds text JSON_parse coerced.
Definition run := run text JSON_parse JSON_stringify.
End Ref.

(** *** The typed view of a stored report

    The SafetyReport schema of the module's header comment, for reports
    whose coordinates and score are numbers, whose tags are strings and
    whose comment is a string. *)
Record SafetyReport : Type := mkReport {
  _id : string;
  longitude : float;
  latitude : float;
  safetyScore : float;
  tags : list string;
  comment : string;
  timestamp : string
}.

Definition to_value (r : SafetyReport) : value :=
  VObj [ ("_id", VStr (_id r));
         ("location",
           VObj [ ("type", VStr "Point");
                  ("coordinates", VArr [VNum (longitude r); VNum (latitude r)]) ]);
         ("safetyScore", VNum (safetyScore r));
         ("tags", VArr (map VStr (tags r)));
         ("comment", VStr (comment r));
         ("timestamp", VStr (timestamp r)) ].

(** The [reportData] object a caller hands to [createReport]. *)
Record ReportData : Type := mkData {
  data_latitude : float;
  data_longitude : float;
  data_safetyScore : float;
  data_tags : list string;
  data_comment : string
}.

Definition data_value (d : ReportData) : value :=
  VObj [ ("latitude", VNum (data_latitude d));
         ("longitude", VNum (data_longitude d));
         ("safetyScore", VNum (data_safetyScore d));
         ("tags", VArr (map VStr (data_tags d)));
         ("comment", VStr (data_comment d)) ].

(** Typed data all of whose numbers [JSON] can carry. *)
Definition data_storable (d : ReportData) : bool :=
  json_number (data_latitude d) && json_number (data_longitude d)
  && json_number (data_safetyScore d).

(** The report [createReport] builds from typed data. *)
Definition report_of {text} (e : Env text) (d : ReportData) : SafetyReport :=
  mkReport (generateReportId (now_id e) (random36 e))
           (data_longitude d) (data_latitude d) (data_safetyScore d)
           (data_tags d) (data_comment d)
           (Clock.toISOString (now_ts e)).

(** *** What the queries are to return

    A bound of the time range is given when it is truthy, and then holds
    inclusively under the comparison of the language; the bounding box is
    closed on all four sides. *)
Definition bound_holds (coerced : relop -> value -> value -> bool)
    (op : relop) (bound : value) (ts : string) : bool :=
  if truthy bound then compare_values coerced op (VStr ts) bound else true.

Definition in_time_range (coerced : relop -> value -> value -> bool)
    (filters : value) (r : SafetyReport) : bool :=
  bound_holds coerced Ge (prop filters "minDate") (timestamp r)
  && bound_holds coerced Le (prop filters "maxDate") (timestamp r).

Definition in_box (minLat maxLat minLon maxLon : float) (r : SafetyReport) : bool :=
  PrimFloat.leb minLat (latitude r) && PrimFloat.leb (latitude r) maxLat
  && PrimFloat.leb minLon (longitude r) && PrimFloat.leb (longitude r) maxLon.

(** *** Order of the log

    Each report's timestamp is at most, in the comparison [getReports]
    itself uses, that of every report appended after it. *)
Definition timestamps_ordered (coerced : relop -> value -> value -> bool)
    (items : list value) : Prop :=
  StronglySorted
    (fun a b => js_le coerced (prop a "timestamp") (prop b "timestamp") = true)
    items.

(** A report stamped by a clock reading of a four-digit year, not after
    [t]. *)
Definition stamped (t : N) (r : value) : Prop :=
  exists t', prop r "timestamp" = VStr (Clock.toISOString t')
             /\ (t' <= t)%N /\ (Clock.year_of t' <= 9999)%N.

(** No ["_"] occurs in the text. *)
Fixpoint underscore_free (s : string) : bool :=
  match s with
  | EmptyString => true
  | String c rest => negb (Ascii.eqb c "_") && underscore_free rest
  end.

(** The clock as [new Date()] read it in each call, in call order. *)
Definition clock_readings {text} (calls : list (Call text)) : list N :=
  map (fun c => now_ts (call_env c)) calls.

(** Sample inputs: the request of the README's test, one clock reading and
    one random draw. *)
Module Sample.
Definition data : ReportData :=
  mkData 43.6532 (-79.3832) 3 ["Harassment"; "Police Presence"] "Test report".
Definition env (w : write_outcome Ref.text) : Env Ref.text :=
  mkEnv 1700000000000 "0.4fzyo82mvyr" 1700000000001 w.
Definition call (w : write_outcome Ref.text) : Call Ref.text :=
  mkCall (env w) (data_value data).
Definition toronto : SafetyReport :=
  mkReport "report_1700000000000_4fzyo82mv" (-79.3832) 43.6532 3
           ["Harassment"; "Police Presence"] "Test report"
           "2023-11-14T22:13:20.001Z".
Definition berlin : SafetyReport :=
  mkReport "report_1709251199999_k2j9x0q1a" 13.405 52.52 5
           ["Welcoming"] "" "2024-02-29T23:59:59.999Z".
Definition log : list SafetyReport := [toronto; berlin].
Definition file : medium Ref.text := Content (Some (VArr (map to_value log))).
(** Two calls within one millisecond whose random draws differ from the
    tenth digit after the point on. *)
Definition twin1 : Call Ref.text :=
  mkCall (mkEnv 1700000000000 "0.4fzyo82mvyr" 1700000000000 WriteOk) (data_value data).
Definition twin2 : Call Ref.text :=
  mkCall (mkEnv 1700000000000 "0.4fzyo82mvzz" 1700000000000 WriteOk) (data_value data).
(** The same request at clock reading [t]. *)
Definition at_time (t : N) : Call Ref.text :=
  mkCall (mkEnv t "0.4fzyo82mvyr" t WriteOk) (data_value data).
End Sample.

End Store.

(** ** The ingestion service around the store

    [server.js] is the caller of the storage module: it throttles by
    network identity, validates the request body and hands the validated
    data to [createReport]. *)

Module Server.
Import Js Store.

(** Modelled from the spec: the validator's typed errors, one per check of
    section 4.1 (the code is in the absent [server.js]). *)
Inductive ValidationError : Type :=
| InvalidLocation | InvalidScore | InvalidTags | InvalidComment.

(** Modelled from the spec: the validator's result of section 4.1, a
    normalized payload or a typed error (the code is in the absent
    [server.js]). *)
Inductive validation : Type :=
| Valid (d : ReportData)
| Invalid (e : ValidationError).

(** A field of the request body; a body that is not an object has none. *)
Definition field (raw : value) (k : string) : value :=
  match raw with
  | VObj props => lookup_prop k props
  | _ => VUndefined
  end.

Definition in_range (lo hi x : float) : bool := PrimFloat.leb lo x && PrimFloat.leb x hi.

(** Modelled from the spec: the validator's first check (section 4.1),
    whose code is in the absent [server.js]: latitude in [[-90, 90]] and
    longitude in [[-180, 180]], both present and numeric. *)
Definition check_location (raw : value) : option (float * float) :=
  match field raw "latitude", field raw "longitude" with
  | VNum lat, VNum lon =>
      if in_range (-90) 90 lat && in_range (-180) 180 lon
      then Some (lat, lon) else None
  | _, _ => None
  end.

(** Modelled from the spec: the validator's second check (section 4.1),
    whose code is in the absent [server.js]: the score is an integer in
    [[1, 5]]. *)
Definition check_score (raw : value) : option float :=
  match field raw "safetyScore" with
  | VNum x => if existsb (PrimFloat.eqb x) [1; 2; 3; 4; 5]%float then Some x else None
  | _ => None
  end.

(** Modelled from the spec: membership of one submitted tag in the Tag
    Catalog (section 4.1, check 3; the code is in the absent [server.js]).
    A value that is not a string is no member. *)
Definition allowed_tag (v : value) : option string :=
  match v with
  | VStr t => if existsb (String.eqb t) ALLOWED_TAGS then Some t else None
  | _ => None
  end.

Fixpoint allowed_tags (items : list value) : option (list string) :=
  match items with
  | [] => Some []
  | v :: rest =>
      match allowed_tag v, allowed_tags rest with
      | Some t, Some ts => Some (t :: ts)
      | _, _ => None
      end
  end.

(** Modelled from the spec: the validator's third check (section 4.1),
    whose code is in the absent [server.js]: tags are optional; when given
    they are a sequence whose every element is a member of the Tag Catalog,
    and one unknown element rejects the whole sequence. *)
Definition check_tags (raw : value) : option (list string) :=
  match field raw "tags" with
  | VUndefined => Some []
  | VArr items => allowed_tags items
  | _ => None
  end.

(** Modelled from the spec: the sanitizer of section 4.1, whose code is in
    the absent [server.js]. A tag-like sequence is a ["<"], any characters
    other than [">"], and the closing [">"]; every such sequence is cut out,
    scanning from the left, and the remaining text is kept. [strip_inside]
    runs after an opening ["<"], holding in [pending] the characters read
    since, which are dropped at the closing [">"] and kept when the text
    ends first. *)
Fixpoint strip_outside (s : string) : string :=
  match s with
  | EmptyString => EmptyString
  | String c rest =>
      if Ascii.eqb c "<" then strip_inside (String c EmptyString) rest
      else String c (strip_outside rest)
  end
with strip_inside (pending s : string) : string :=
  match s with
  | EmptyString => pending
  | String c rest =>
      if Ascii.eqb c ">" then strip_outside rest
      else strip_inside (pending ++ String c EmptyString) rest
  end.

Definition strip_markup (s : string) : string := strip_outside s.

(** No [">"] occurs in the text. *)
Fixpoint gt_free (s : string) : bool :=
  match s with
  | EmptyString => true
  | String c rest => negb (Ascii.eqb c ">") && gt_free rest
  end.

(** No ["<"] occurs in the text. *)
Fixpoint lt_free (s : string) : bool :=
  match s with
  | EmptyString => true
  | String c rest => negb (Ascii.eqb c "<") && lt_free rest
  end.

(** No ["<"] of the text is followed, however far, by a [">"]: the text
    holds no tag-like sequence. *)
Fixpoint tag_free (s : string) : bool :=
  match s with
  | EmptyString => true
  | String c rest => (if Ascii.eqb c "<" then gt_free rest else true) && tag_free rest
  end.

Definition MAX_COMMENT : nat := 280.

(** Modelled from the spec: the validator's fourth check (section 4.1),
    whose code is in the absent [server.js]: the comment is optional; when
    given its length after stripping is at most 280, and the stripped text
    is what is kept. *)
Definition check_comment (raw : value) : option string :=
  match field raw "comment" with
  | VUndefined => Some ""
  | VStr c =>
      let c' := strip_markup c in
      if (String.length c' <=? MAX_COMMENT)%nat then Some c' else None
  | _ => None
  end.

(** Modelled from the spec: [validate] of section 4.1, whose code is in the
    absent [server.js]: the four checks in order, the first failure wins. *)
Definition validate (raw : value) : validation :=
  match check_location raw with
  | None => Invalid InvalidLocation
  | Some (lat, lon) =>
      match check_score raw with
      | None => Invalid InvalidScore
      | Some score =>
          match check_tags raw with
          | None => Invalid InvalidTags
          | Some ts =>
              match check_comment raw with
              | None => Invalid InvalidComment
              | Some c => Valid (mkData lat lon score ts c)
              end
          end
      end
  end.

(** Request bodies: the README's test request with the given tags and
    comment. *)
Definition body (tags : list value) (comment : string) : value :=
  VObj [ ("latitude", VNum 43.6532); ("longitude", VNum (-79.3832));
         ("safetyScore", VNum 3); ("tags", VArr tags);
         ("comment", VStr comment) ].

Fixpoint repeat_char (c : ascii) (n : nat) : string :=
  match n with
  | O => EmptyString
  | S n' => String c (repeat_char c n')
  end.

(** A comment in bold markup around [n] letters. *)
Definition bold (n : nat) : string :=
  ("<b>" ++ repeat_char "x" n ++ "</b>")%string.

(** *** Rate limiter *)

(** Modelled from the spec: the RateLimitWindow of section 3, kept per
    network identity by the rate limiter of the absent [server.js]. *)
Record RateLimitWindow : Type := mkWindow { count : nat; windowStart : Z }.

Inductive decision : Type := Allowed | Throttled.

(** Window length in milliseconds and quota. *)
Record Limits : Type := mkLimits { W : Z; Q : nat }.

(** Modelled from the spec: the defaults of section 4.2, one hour and three
    submissions (the code is in the absent [server.js]). *)
Definition default_limits : Limits := mkLimits 3600000 3.

(** Modelled from the spec: [checkAndRecord] of section 4.2, whose code is
    in the absent [server.js]: no window for the identity, or a window at
    least [W] old, starts a fresh window with count 1 and allows; otherwise
    the count is incremented and the call is allowed iff the new count is
    at most [Q]; a rejected call does not push the count beyond [Q + 1]. *)
Definition checkAndRecord (lim : Limits) (identity : string) (now : Z)
    (windows : gmap string RateLimitWindow) : decision * gmap string RateLimitWindow :=
  let fresh := (Allowed, <[identity := mkWindow 1 now]> windows) in
  match windows !! identity with
  | None => fresh
  | Some w =>
      if (W lim <=? now - windowStart w)%Z then fresh
      else
        let c := S (count w) in
        if (c <=? Q lim)%nat
        then (Allowed, <[identity := mkWindow c (windowStart w)]> windows)
        else (Throttled,
              <[identity := mkWindow (Nat.min c (S (Q lim))) (windowStart w)]> windows)
  end.

(** The decisions for one identity submitting at the given times, and the
    windows afterwards. *)
Fixpoint submissions (lim : Limits) (identity : string) (times : list Z)
    (windows : gmap string RateLimitWindow)
  : list decision * gmap string RateLimitWindow :=
  match times with
  | [] => ([], windows)
  | now :: rest =>
      let '(d, windows') := checkAndRecord lim identity now windows in
      let '(ds, windows'') := submissions lim identity rest windows' in
      (d :: ds, windows'')
  end.

(** The limiter under traffic: the decisions for a sequence of submissions
    [(identity, now)] of any identities, and the windows afterwards. *)
Fixpoint serve (lim : Limits) (events : list (string * Z))
    (windows : gmap string RateLimitWindow)
  : list decision * gmap string RateLimitWindow :=
  match events with
  | [] => ([], windows)
  | (identity, now) :: rest =>
      let '(d, windows') := checkAndRecord lim identity now windows in
      let '(ds, windows'') := serve lim rest windows' in
      (d :: ds, windows'')
  end.

(** The times at which one identity submits, and the decisions it gets,
    within a sequence of submissions. *)
Fixpoint times_of (identity : string) (events : list (string * Z)) : list Z :=
  match events with
  | [] => []
  | (i, now) :: rest =>
      if String.eqb i identity then now :: times_of identity rest
      else times_of identity rest
  end.

Fixpoint decisions_of (identity : string) (events : list (string * Z))
    (ds : list decision) : list decision :=
  match events, ds with
  | (i, _) :: rest, d :: ds' =>
      if String.eqb i identity then d :: decisions_of identity rest ds'
      else decisions_of identity rest ds'
  | _, _ => []
  end.

(** Four submissions of one address among three of another. *)
Definition traffic : list (string * Z) :=
  [ ("203.0.113.7", 0); ("198.51.100.2", 500); ("203.0.113.7", 1000);
    ("198.51.100.2", 1500); ("203.0.113.7", 2000); ("198.51.100.2", 2500);
    ("203.0.113.7", 3599999) ]%Z.

(** The first submission of a series opens a window: the identity has
    none, or the one it has is at least [W] old. *)
Definition opens_window (lim : Limits) (identity : string) (now : Z)
    (windows : gmap string RateLimitWindow) : Prop :=
  match windows !! identity with
  | None => True
  | Some w => (W lim <= now - windowStart w)%Z
  end.

(** *** Ingestion endpoint *)

(** Modelled from the spec: the responses of section 6 (the code is in the
    absent [server.js]). *)
Inductive response : Type :=
| Created (report : value)               (* 201 *)
| BadRequest (e : ValidationError)       (* 400 *)
| TooManyRequests                        (* 429 *)
| ServerError.                           (* 500 *)

Section Endpoint.
Variable text : Type.
Variable JSON_parse : text -> option value.
Variable JSON_stringify : value -> text.

Record state : Type := mkState {
  windows : gmap string RateLimitWindow;
  file : medium text
}.

(** Modelled from the spec: the orchestration of section 4.4, whose code
    is in the absent [server.js]: rate limiter, then validator, then the
    store's [createReport]. *)
Definition submit (lim : Limits) (identity : string) (now : Z) (raw : value)
    (e : Env text) (st : state) : response * state :=
  let '(d, ws) := checkAndRecord lim identity now (windows st) in
  match d with
  | Throttled => (TooManyRequests, mkState ws (file st))
  | Allowed =>
      match validate raw with
      | Invalid err => (BadRequest err, mkState ws (file st))
      | Valid d =>
          match createReport text JSON_parse JSON_stringify e (data_value d) (file st) with
          | Ok (report, m') => (Created report, mkState ws m')
          | Throw _ => (ServerError, mkState ws (file st))
          end
      end
  end.
End Endpoint.

End Server.

(** ** The submit handler of the report form: [components/SafetyReportModal.js] *)

Module Client.
Import Js.

(** The state of the form that [handleSubmit] reads: the selected score
    ([null] until one is tapped), the selected tags, the comment as typed,
    and the captured location ([null] until it is known). *)
Record Form : Type := mkForm {
  safetyScore : value;
  selectedTags : list string;
  comment : string;
  location : option (float * float)           (* latitude, longitude *)
}.

(** The arguments of [submitSafetyReport]. *)
Record Request : Type := mkRequest {
  req_latitude : float;
  req_longitude : float;
  req_safetyScore : value;
  req_tags : list string;
  req_comment : string
}.

(** What [submitSafetyReport] rejects with: [error.status],
    [error.data.error] and [error.message], each possibly missing. *)
Record ApiError : Type := mkApiError {
  status : option N;
  data_error : option string;
  message : option string
}.

Inductive alert : Type :=
| Required | LocationRequired | CommentTooLong
| ReportSubmitted | TooManyReports | RateLimitExceeded | SubmissionError.

(** White space as [String.prototype.trim] sees it, among the code units
    below 256: tab, line feed, vertical tab, form feed, carriage return,
    space and no-break space. *)
Definition is_space (c : ascii) : bool :=
  let n := N_of_ascii c in
  ((9 <=? n) && (n <=? 13) || (n =? 32) || (n =? 160))%N.

Fixpoint trim_start (s : string) : string :=
  match s with
  | EmptyString => EmptyString
  | String c rest => if is_space c then trim_start rest else s
  end.

Fixpoint trim_end (s : string) : string :=
  match s with
  | EmptyString => EmptyString
  | String c rest =>
      match trim_end rest with
      | EmptyString => if is_space c then EmptyString else String c EmptyString
      | rest' => String c rest'
      end
  end.

(** [s.trim()] *)
Definition trim (s : string) : string := trim_end (trim_start s).

(** [haystack.includes(needle)] *)
Fixpoint includes (haystack needle : string) : bool :=
  String.prefix needle haystack
  || match haystack with
     | EmptyString => false
     | String _ rest => includes rest needle
     end.

(** The alert for a rejected request. *)
Definition error_alert (err : ApiError) : alert :=
  if (match status err with Some 429%N => true | _ => false end)
     || (match data_error err with
         | Some e => e =? "Too Many Reports"
         | None => false
         end)
  then TooManyReports
  else if (match message err with
           | Some msg => negb (msg =? "") && includes msg "rate limit"
           | None => false
           end)
  then RateLimitExceeded
  else SubmissionError.

(** [handleSubmit]: the request it sends, if any, and the alert it shows;
    [send] is [submitSafetyReport], which resolves ([None]) or rejects with
    an error. *)
Definition handleSubmit (send : Request -> option ApiError) (form : Form)
  : option Request * alert :=
  if negb (truthy (safetyScore form)) then (None, Required)
  else match location form with
       | None => (None, LocationRequired)
       | Some (latitude, longitude) =>
           if (280 <? String.length (comment form))%nat
           then (None, CommentTooLong)
           else
             let request :=
               mkRequest latitude longitude (safetyScore form)
                         (selectedTags form) (trim (comment form)) in
             match send request with
             | None => (Some request, ReportSubmitted)
             | Some err => (Some request, error_alert err)
             end
       end.

(** A form with the README's location, score 3, and the given comment; a
    backend that accepts everything. *)
Definition sample_form (comment : string) : Form :=
  mkForm (VNum 3) ["Harassment"] comment (Some (43.6532, -79.3832)%float).
Definition accepting (_ : Request) : option ApiError := None.

End Client.

(** ** The report form, its handlers and its buttons:
       [components/SafetyReportModal.js] *)

Module ReportModal.
Import Js Client.

(** The state hooks of the component. *)
Record State : Type := mkState {
  form : Form;
  loading : bool;
  locationLoading : bool;
  availableTags : list string;
  submitting : bool
}.

(** The initial values of the hooks. *)
Definition mount : State :=
  mkState (mkForm VNull [] "" None) false true [] false.

Definition setSafetyScore (v : value) (st : State) : State :=
  mkState (mkForm v (selectedTags (form st)) (comment (form st)) (location (form st)))
          (loading st) (locationLoading st) (availableTags st) (submitting st).

Definition setSelectedTags (tags : list string) (st : State) : State :=
  mkState (mkForm (safetyScore (form st)) tags (comment (form st)) (location (form st)))
          (loading st) (locationLoading st) (availableTags st) (submitting st).

Definition setComment (text : string) (st : State) : State :=
  mkState (mkForm (safetyScore (form st)) (selectedTags (form st)) text
                  (location (form st)))
          (loading st) (locationLoading st) (availableTags st) (submitting st).

Definition setLocation (l : option (float * float)) (st : State) : State :=
  mkState (mkForm (safetyScore (form st)) (selectedTags (form st)) (comment (form st)) l)
          (loading st) (locationLoading st) (availableTags st) (submitting st).

Definition setLoading (b : bool) (st : State) : State :=
  mkState (form st) b (locationLoading st) (availableTags st) (submitting st).

Definition setLocationLoading (b : bool) (st : State) : State :=
  mkState (form st) (loading st) b (availableTags st) (submitting st).

Definition setAvailableTags (tags : list string) (st : State) : State :=
  mkState (form st) (loading st) (locationLoading st) tags (submitting st).

Definition setSubmitting (b : bool) (st : State) : State :=
  mkState (form st) (loading st) (locationLoading st) (availableTags st) b.

(** The [value]s of the five score buttons. *)
Definition safetyScores : list float := [1; 2; 3; 4; 5]%float.

(** The tags [loadTags] falls back to. *)
Definition FALLBACK_TAGS : list string :=
  [ "Harassment"; "Welcoming"; "Police Presence"; "Protest";
    "Crowded"; "Quiet"; "Other" ].

(** How [await getReportTags()] settles: it rejects, or resolves with a
    response whose [success] is truthy or not and whose [tags] are an
    array of strings or something falsy ([None]). *)
Inductive tags_outcome : Type :=
| TagsRejected
| TagsResponse (success : bool) (tags : option (list string)).

(** [loadTags] *)
Definition loadTags (o : tags_outcome) (st : State) : State :=
  match o with
  | TagsResponse success tags =>
      if success
      then setAvailableTags (match tags with Some ts => ts | None => [] end) st
      else st
  | TagsRejected => setAvailableTags FALLBACK_TAGS st
  end.

(** How the two awaits of [getCurrentLocation] settle: the permission
    request rejects, or resolves with a status; the position request, made
    only when the status is ['granted'], rejects ([None]) or resolves with
    a latitude and a longitude. *)
Inductive location_outcome : Type :=
| PermissionRejected
| PermissionStatus (status : string) (position : option (float * float)).

Inductive notice : Type := LocationPermissionRequired | LocationError.

(** [getCurrentLocation]: the state it leaves and the alert it shows. *)
Definition getCurrentLocation (o : location_outcome) (st : State)
  : State * option notice :=
  let st := setLocationLoading true st in
  match o with
  | PermissionRejected =>
      (setLocationLoading false st, Some LocationError)
  | PermissionStatus status position =>
      if negb (status =? "granted")
      then (setLocationLoading false st, Some LocationPermissionRequired)
      else match position with
           | Some (latitude, longitude) =>
               (setLocationLoading false (setLocation (Some (latitude, longitude)) st),
                None)
           | None => (setLocationLoading false st, Some LocationError)
           end
  end.

(** [resetForm] *)
Definition resetForm (st : State) : State :=
  setLoading false
    (setLocation None
       (setComment "" (setSelectedTags [] (setSafetyScore VNull st)))).

(** [tags.includes(tag)] on an array of strings. *)
Definition array_includes (tags : list string) (tag : string) : bool :=
  existsb (String.eqb tag) tags.

(** [toggleTag] *)
Definition toggleTag (tag : string) (st : State) : State :=
  let selected := selectedTags (form st) in
  if array_includes selected tag
  then setSelectedTags (List.filter (fun t => negb (t =? tag)) selected) st
  else setSelectedTags (selected ++ [tag]) st.

(** The [disabled] property of the submit button. *)
Definition submit_disabled (st : State) : bool :=
  negb (truthy (safetyScore (form st)))
  || match location (form st) with None => true | Some _ => false end
  || submitting st.

(** What can happen to the component, one event at a time, each followed
    by a render: the modal becomes visible (the synchronous part of
    [getCurrentLocation] runs) or hidden ([resetForm] runs, as it does when
    the success alert is dismissed); a pending [getCurrentLocation] or
    [loadTags] settles, whenever that is; the [i]th score button or the
    [i]th tag button is pressed; the comment is edited; the submit button
    is pressed and the request, if one is made, settles. *)
Inductive event : Type :=
| Opened
| Closed
| LocationSettled (o : location_outcome)
| TagsSettled (o : tags_outcome)
| ScorePressed (i : nat)
| TagPressed (i : nat)
| TextChanged (text : string)
| SubmitPressed (outcome : option ApiError).

(** The state after an event and the request it sent, if any. A button
    that is not there, or is disabled, does nothing. *)
Definition step (ev : event) (st : State) : State * option Request :=
  match ev with
  | Opened => (setLocationLoading true st, None)
  | Closed => (resetForm st, None)
  | LocationSettled o => (fst (getCurrentLocation o st), None)
  | TagsSettled o => (loadTags o st, None)
  | ScorePressed i =>
      match nth_error safetyScores i with
      | Some score => (setSafetyScore (VNum score) st, None)
      | None => (st, None)
      end
  | TagPressed i =>
      match nth_error (availableTags st) i with
      | Some tag => (toggleTag tag st, None)
      | None => (st, None)
      end
  | TextChanged text => (setComment text st, None)
  | SubmitPressed outcome =>
      if submit_disabled st then (st, None)
      else match handleSubmit (fun _ => outcome) (form st) with
           | (Some request, _) => (setSubmitting false st, Some request)
           | (None, _) => (st, None)
           end
  end.

(** The requests a sequence of events sends, in order. *)
Fixpoint sent (events : list event) (st : State) : list Request :=
  match events with
  | [] => []
  | ev :: rest =>
      let '(st', request) := step ev st in
      match request with
      | Some r => r :: sent rest st'
      | None => sent rest st'
      end
  end.

(** The positions that [getCurrentLocation] obtained in a sequence of
    events. *)
Definition delivered (events : list event) : list (float * float) :=
  flat_map (fun ev =>
              match ev with
              | LocationSettled (PermissionStatus status (Some p)) =>
                  if status =? "granted" then [p] else []
              | _ => []
              end) events.

(** Every list of tags the backend answered with is drawn from
    [catalog]. *)
Definition tags_within (catalog : list string) (ev : event) : Prop :=
  match ev with
  | TagsSettled (TagsResponse _ (Some tags)) => incl tags catalog
  | _ => True
  end.

(** What holds of the form between events: the score is unset or one of
    the five, the selected tags are distinct and from the catalog, as are
    the tags on offer, and the location is one that was obtained. *)
Definition invariant (catalog : list string) (seen : list (float * float))
    (st : State) : Prop :=
  (safetyScore (form st) = VNull \/ In (safetyScore (form st)) (map VNum safetyScores))
  /\ List.NoDup (selectedTags (form st))
  /\ incl (selectedTags (form st)) catalog
  /\ incl (availableTags st) catalog
  /\ (forall p, location (form st) = Some p -> In p seen).

Definition well_formed (catalog : list string) (seen : list (float * float))
    (r : Request) : Prop :=
  In (req_safetyScore r) (map VNum safetyScores)
  /\ List.NoDup (req_tags r)
  /\ incl (req_tags r) catalog
  /\ (String.length (req_comment r) <= 280)%nat
  /\ In (req_latitude r, req_longitude r) seen.

(** A session: the modal opens on a granted location while the tags
    request fails, the user picks a score and two tags, drops one of them,
    types and submits. *)
Definition session : list event :=
  [ Opened; TagsSettled TagsRejected;
    LocationSettled (PermissionStatus "granted" (Some (43.6532, -79.3832)%float));
    ScorePressed 3; TagPressed 0; TagPressed 4; TagPressed 0;
    TextChanged " calm tonight "; SubmitPressed None ].

End ReportModal.

(** ** The secure storage utility over [expo-secure-store] *)

Module SecureStorage.
Import Js.

(** The keychain and what the utility reads from its surroundings: the
    items stored, what becomes of each coming call to [SecureStore] in turn
    ([Some message]: the call rejects with [Error(message)] and stores
    nothing; past the end of the list every call goes through), and the
    values of [Math.floor(Math.random() * chars.length)] to come. *)
Record Device : Type := mkDevice {
  items : gmap string string;
  faults : list (option string);
  draws : list nat
}.

(** An [async] function settles: it resolves with a value or rejects with
    an [Error] that carries a message. *)
Inductive settled (A : Type) : Type :=
| Resolved (a : A)
| Rejected (message : string).
Arguments Resolved {A} a.
Arguments Rejected {A} message.

Definition async (A : Type) : Type := Device -> settled A * Device.

Definition resolve {A} (a : A) : async A := fun d => (Resolved a, d).

(** [throw new Error(message)] *)
Definition throw {A} (message : string) : async A := fun d => (Rejected message, d).

(** [const x = await c; k] *)
Definition await {A B} (c : async A) (k : A -> async B) : async B :=
  fun d =>
    match c d with
    | (Resolved a, d') => k a d'
    | (Rejected message, d') => (Rejected message, d')
    end.

Notation "'let*' x := c 'in' k" := (await c (fun x => k))
  (at level 10, x name, c at level 100, k at level 200).

(** [try { body } catch (error) { handler(error.message) }] *)
Definition try_catch {A} (body : async A) (handler : string -> async A) : async A :=
  fun d =>
    match body d with
    | (Resolved a, d') => (Resolved a, d')
    | (Rejected message, d') => handler message d'
    end.

(** One call to [SecureStore]. *)
Definition native {A} (op : gmap string string -> A * gmap string string)
  : async A :=
  fun d =>
    match faults d with
    | Some message :: rest => (Rejected message, mkDevice (items d) rest (draws d))
    | coming =>
        let '(a, stored) := op (items d) in
        (Resolved a, mkDevice stored (tl coming) (draws d))
    end.

Definition setItemAsync (key value : string) : async unit :=
  native (fun stored => (tt, <[key := value]> stored)).

Definition getItemAsync (key : string) : async (option string) :=
  native (fun stored => (stored !! key, stored)).

Definition deleteItemAsync (key : string) : async unit :=
  native (fun stored => (tt, delete key stored)).

(** The next value of [Math.floor(Math.random() * chars.length)]. *)
Definition random_index : async nat :=
  fun d => (Resolved (hd 0%nat (draws d)),
            mkDevice (items d) (faults d) (tl (draws d))).

Definition chars : string :=
  "ABCDEFGHIJKLMNOPQRSTUVWXYZabcdefghijklmnopqrstuvwxyz0123456789!@#$%^&*".

(** [s.charAt(i)]: the empty string out of range. *)
Definition charAt (s : string) (i : nat) : string :=
  match String.get i s with
  | Some c => String c EmptyString
  | None => EmptyString
  end.

(** The loop of [generateRandomGarbage], [length] rounds from [result]. *)
Fixpoint garbage_loop (length : nat) (result : string) : async string :=
  match length with
  | O => resolve result
  | S length' =>
      let* i := random_index in
      garbage_loop length' (result ++ charAt chars i)
  end.

(** [generateRandomGarbage(length)] *)
Definition generateRandomGarbage (length : nat) : async string :=
  garbage_loop length "".

(** [typeof v === 'string'] *)
Definition is_string (v : value) : bool :=
  match v with VStr _ => true | _ => false end.

(** [!v || typeof v !== 'string'] *)
Definition not_a_nonempty_string (v : value) : bool :=
  negb (truthy v) || negb (is_string v).

(** The text of a value that passed the check. *)
Definition text_of (v : value) : string :=
  match v with VStr s => s | _ => "" end.

(** [saveToken] *)
Definition saveToken (key value : value) : async unit :=
  try_catch
    (if not_a_nonempty_string key then throw "Key must be a non-empty string"
     else if not_a_nonempty_string value
          then throw "Value must be a non-empty string"
          else setItemAsync (text_of key) (text_of value))
    (fun message => throw ("Failed to save token: " ++ message)).

(** [getToken]: the value, or [null] ([None]) when there is none or it is
    empty. *)
Definition getToken (key : value) : async (option string) :=
  try_catch
    (if not_a_nonempty_string key then throw "Key must be a non-empty string"
     else
       let* value := getItemAsync (text_of key) in
       match value with
       | Some v => if negb (v =? "") then resolve (Some v) else resolve None
       | None => resolve None
       end)
    (fun message => throw ("Failed to retrieve token: " ++ message)).

(** [deleteToken] *)
Definition deleteToken (key : value) : async unit :=
  try_catch
    (if not_a_nonempty_string key then throw "Key must be a non-empty string"
     else
       let* exists_ := getItemAsync (text_of key) in
       match exists_ with
       | Some v => if negb (v =? "") then deleteItemAsync (text_of key)
                   else resolve tt
       | None => resolve tt
       end)
    (fun message => throw ("Failed to delete token: " ++ message)).

(** [secureDeleteToken] *)
Definition secureDeleteToken (key : value) : async unit :=
  try_catch
    (if not_a_nonempty_string key then throw "Key must be a non-empty string"
     else
       let* exists_ := getItemAsync (text_of key) in
       match exists_ with
       | Some v =>
           if negb (v =? "") then
             let originalLength :=
               if (String.length v =? 0)%nat then 32%nat else String.length v in
             let* garbage1 := generateRandomGarbage originalLength in
             let* garbage2 := generateRandomGarbage originalLength in
             let* garbage3 := generateRandomGarbage originalLength in
             let* _ := setItemAsync (text_of key) garbage1 in
             let* _ := setItemAsync (text_of key) garbage2 in
             let* _ := setItemAsync (text_of key) garbage3 in
             deleteItemAsync (text_of key)
           else resolve tt
       | None => resolve tt
       end)
    (fun message => throw ("Failed to securely delete token: " ++ message)).

Definition saveAuthToken (token : value) : async unit :=
  saveToken (VStr "authToken") token.

Definition getAuthToken : async (option string) := getToken (VStr "authToken").

Definition deleteAuthToken : async unit := deleteToken (VStr "authToken").

(** [hasToken] *)
Definition hasToken (key : value) : async bool :=
  try_catch
    (let* value := getToken key in
     resolve (match value with Some _ => true | None => false end))
    (fun _ => resolve false).

(** Every draw is an index into [chars]. *)
Definition in_range (d : Device) : Prop :=
  Forall (fun i => (i < String.length chars)%nat) (draws d).

(** The next [n] calls to [SecureStore] go through. *)
Definition goes_through (n : nat) (d : Device) : Prop :=
  Forall (fun f => f = None) (firstn n (faults d)).

(** Every character of the text is one of [chars]. *)
Definition from_chars (s : string) : bool :=
  forallb (fun c => existsb (Ascii.eqb c) (list_ascii_of_string chars))
          (list_ascii_of_string s).

(** [c], run on [d], leaves a device in [failed] when it rejects, and a
    value and a device in [done] when it resolves. *)
Definition settles {A} (failed : Device -> Prop) (done : A -> Device -> Prop)
    (c : async A) (d : Device) : Prop :=
  match c d with
  | (Resolved a, d') => done a d'
  | (Rejected _, d') => failed d'
  end.

(** Every key but [key] holds what it holds in [stored]. *)
Definition others_kept (key : string) (stored : gmap string string)
    (d : Device) : Prop :=
  forall key', key' <> key -> items d !! key' = stored !! key'.

(** The key holds the token or garbage of the same length. *)
Definition overwritten (key token : string) (d : Device) : Prop :=
  exists g, items d !! key = Some g
            /\ String.length g = String.length token
            /\ (g = token \/ from_chars g = true).

(** Nothing that [getToken] would return is stored under the key. *)
Definition gone (key : string) (d : Device) : Prop :=
  items d !! key = None \/ items d !! key = Some "".

(** A keychain that holds a session token and an API key, with no fault
    to come, and one whose fifth call fails. *)
Definition keychain : gmap string string :=
  <["authToken" := "eyJhbGciOi"]> (<["apiKey" := "k-42"]> ∅).
Definition healthy : Device := mkDevice keychain [] [3; 69; 12; 40; 7]%nat.
Definition failing : Device :=
  mkDevice keychain [None; None; None; None; Some "keychain locked"] [].

End SecureStorage.

(** ** Records of any shape, as the queries of the store meet them *)

Module Shapes.
Import Js Store.

Definition nullish (v : value) : bool :=
  match v with
  | VUndefined | VNull => true
  | _ => false
  end.

(** A record from which [getReportsInBounds] can take two coordinates: it
    is not [null], its [location] is not missing or [null], and
    [location.coordinates] is an array or a string. *)
Definition locatable (r : value) : bool :=
  negb (nullish r)
  && negb (nullish (prop r "location"))
  && match prop (prop r "location") "coordinates" with
     | VArr _ | VStr _ => true
     | _ => false
     end.

(** The first two elements of [location.coordinates]: longitude, latitude. *)
Definition lonlat (r : value) : value * value :=
  match destructure2 (prop (prop r "location") "coordinates") with
  | Ok coords => coords
  | Throw _ => (VUndefined, VUndefined)
  end.

(** The time range on a record of any shape: each bound that is given
    (truthy) holds of the record's [timestamp], whatever that is. *)
Definition within (coerced : relop -> value -> value -> bool)
    (filters r : value) : bool :=
  (if truthy (prop filters "minDate")
   then js_ge coerced (prop r "timestamp") (prop filters "minDate") else true)
  && (if truthy (prop filters "maxDate")
      then js_le coerced (prop r "timestamp") (prop filters "maxDate") else true).

(** The bounding box on a record of any shape. *)
Definition inside (coerced : relop -> value -> value -> bool)
    (minLat maxLat minLon maxLon r : value) : bool :=
  let '(lon, lat) := lonlat r in
  js_ge coerced lat minLat && js_le coerced lat maxLat
  && js_ge coerced lon minLon && js_le coerced lon maxLon.

(** What an id is made of: the clock reading and the nine characters kept
    of the random draw. *)
Definition id_source {text} (c : Call text) : N * string :=
  (now_id (call_env c), substr 2 9 (random36 (call_env c))).

(** The ids of a list of reports. *)
Definition ids (reports : list value) : list value :=
  map (fun r => prop r "_id") reports.

(** Sample inputs: report data without a longitude and with tags [0], a
    record of an older format, and a file that holds it between two
    reports. *)
Definition bare : value := VObj [ ("latitude", VStr "north"); ("tags", VNum 0) ].
Definition legacy : value := VObj [ ("_id", VStr "legacy") ].
Definition mixed_file : medium Ref.text :=
  Content (Some (VArr [to_value Sample.toronto; legacy; to_value Sample.berlin])).

End Shapes.

(** * Properties *)

(** ** [Date] *)

Example toISOString_2023 : Clock.toISOString 1700000000000 = "2023-11-14T22:13:20.000Z".
Proof. vm_compute. reflexivity. Qed.

Example toISOString_epoch : Clock.toISOString 0 = "1970-01-01T00:00:00.000Z".
Proof. vm_compute. reflexivity. Qed.

Example toISOString_leap_day : Clock.toISOString 1709251199999 = "2024-02-29T23:59:59.999Z".
Proof. vm_compute. reflexivity. Qed.

Example decimal_now : Clock.decimal 1700000000000 = "1700000000000".
Proof. vm_compute. reflexivity. Qed.

Module ClockFacts.
Import Clock.
Local Open Scope N_scope.

(** *** Comparing numbers field by field *)

Ltac by_compare :=
  repeat match goal with
         | |- context [?a ?= ?b] =>
             destruct (N.compare_spec a b)
         end;
  try reflexivity; exfalso; nia.

Lemma compare_lex (k q x q' x' : N) :
  x < k -> x' < k ->
  (q * k + x ?= q' * k + x')
  = match q ?= q' with Eq => x ?= x' | o => o end.
Proof. intros Hx Hx'. by_compare. Qed.

Lemma compare_div_mod (k a b : N) :
  k <> 0 ->
  (a ?= b)
  = match a / k ?= b / k with Eq => a mod k ?= b mod k | o => o end.
Proof.
  intros Hk.
  rewrite (N.div_mod a k Hk) at 1. rewrite (N.div_mod b k Hk) at 1.
  rewrite (N.mul_comm k (a / k)), (N.mul_comm k (b / k)).
  apply compare_lex; now apply N.mod_lt.
Qed.

(** *** Comparing strings segment by segment *)

Lemma compare_app (a b c d : string) :
  String.length a = String.length b ->
  String.compare (a ++ c) (b ++ d)
  = match String.compare a b with Eq => String.compare c d | o => o end.
Proof.
  revert b. induction a as [|x a IH]; intros [|y b] H; try discriminate.
  - reflexivity.
  - simpl in *. injection H as H.
    destruct (Ascii.compare x y); auto.
Qed.

Lemma append_cons (c : ascii) (a b : string) :
  (String c a ++ b)%string = String c (a ++ b).
Proof. reflexivity. Qed.

Lemma append_nil (b : string) : ("" ++ b)%string = b.
Proof. reflexivity. Qed.

Lemma compare_cons (c : ascii) (a b : string) :
  String.compare (String c a) (String c b) = String.compare a b.
Proof.
  simpl. unfold Ascii.compare. now rewrite N.compare_refl.
Qed.

Lemma digit_compare (x y : N) :
  x < 10 -> y < 10 -> Ascii.compare (digit x) (digit y) = (x ?= y).
Proof.
  intros Hx Hy. unfold Ascii.compare, digit.
  rewrite (N.mod_small x 10 Hx), (N.mod_small y 10 Hy).
  rewrite !N_ascii_embedding by lia. by_compare.
Qed.

Lemma digit_mod (n : N) : digit n = digit (n mod 10).
Proof. unfold digit. now rewrite N.Div0.mod_mod. Qed.

Lemma length_app (a b : string) :
  String.length (a ++ b) = (String.length a + String.length b)%nat.
Proof. induction a as [|c a IH]; simpl; [reflexivity|now rewrite IH]. Qed.

Lemma digits_length (w : nat) (n : N) : String.length (digits w n) = w.
Proof.
  revert n. induction w as [|w IH]; intros n; simpl; [reflexivity|].
  rewrite length_app, IH. simpl. lia.
Qed.

Lemma digits_compare (w : nat) (a b : N) :
  a < 10 ^ N.of_nat w -> b < 10 ^ N.of_nat w ->
  String.compare (digits w a) (digits w b) = (a ?= b).
Proof.
  revert a b. induction w as [|w IH]; intros a b Ha Hb.
  - simpl in *. by_compare.
  - rewrite Nat2N.inj_succ, N.pow_succ_r' in Ha, Hb.
    cbn [digits]. rewrite compare_app by now rewrite !digits_length.
    rewrite IH by (apply N.Div0.div_lt_upper_bound; lia).
    rewrite (compare_div_mod 10 a b) by lia.
    destruct (a / 10 ?= b / 10); try reflexivity.
    simpl. rewrite (digit_mod a), (digit_mod b).
    rewrite digit_compare by (apply N.mod_lt; lia).
    now destruct (a mod 10 ?= b mod 10).
Qed.

(** *** The calendar *)

Lemma days_in_month_le (y m : N) : days_in_month y m <= 31.
Proof.
  unfold days_in_month.
  destruct (m =? 2); [destruct (is_leap y); lia|].
  destruct ((m =? 4) || (m =? 6) || (m =? 9) || (m =? 11)); lia.
Qed.

Lemma next_day_in_calendar (d : date) : in_calendar d -> in_calendar (next_day d).
Proof.
  unfold in_calendar, next_day. intros [Hm Hd].
  destruct (day d <? days_in_month (year d) (month d)) eqn:E; simpl.
  - apply N.ltb_lt in E. pose proof (days_in_month_le (year d) (month d)). lia.
  - destruct (month d <? 12) eqn:E'; simpl; [apply N.ltb_lt in E'|]; lia.
Qed.

Lemma civil_in_calendar (n : N) : in_calendar (civil_of_days n).
Proof.
  unfold civil_of_days. apply N.iter_invariant.
  - intros d. apply next_day_in_calendar.
  - unfold in_calendar, epoch. simpl. lia.
Qed.

Lemma next_day_lt (d : date) : date_lt d (next_day d).
Proof.
  unfold date_lt, next_day.
  destruct (day d <? days_in_month (year d) (month d)); simpl; [lia|].
  destruct (month d <? 12); simpl; lia.
Qed.

Lemma date_lt_trans (a b c : date) : date_lt a b -> date_lt b c -> date_lt a c.
Proof. unfold date_lt. lia. Qed.

Lemma civil_lt (n n' : N) :
  n < n' -> date_lt (civil_of_days n) (civil_of_days n').
Proof.
  induction n' as [|n' IH] using N.peano_ind; [lia|].
  intros H. unfold civil_of_days at 2. rewrite N.iter_succ.
  fold (civil_of_days n').
  destruct (N.eq_dec n n') as [->|Hne].
  - apply next_day_lt.
  - eapply date_lt_trans; [apply IH; lia|apply next_day_lt].
Qed.

Lemma date_compare_lt (a b : date) : date_lt a b -> date_compare a b = Lt.
Proof.
  unfold date_lt, date_compare. intros H.
  destruct (N.compare_spec (year a) (year b)); try lia; try reflexivity.
  destruct (N.compare_spec (month a) (month b)); try lia; try reflexivity.
  destruct (N.compare_spec (day a) (day b)); try lia; reflexivity.
Qed.

Lemma date_compare_gt (a b : date) : date_lt b a -> date_compare a b = Gt.
Proof.
  unfold date_lt, date_compare. intros H.
  destruct (N.compare_spec (year a) (year b)); try lia; try reflexivity.
  destruct (N.compare_spec (month a) (month b)); try lia; try reflexivity.
  destruct (N.compare_spec (day a) (day b)); try lia; reflexivity.
Qed.

Lemma date_compare_refl (a : date) : date_compare a a = Eq.
Proof. unfold date_compare. now rewrite !N.compare_refl. Qed.

(** The calendar day orders as the day count does. *)
Lemma civil_compare (n n' : N) :
  date_compare (civil_of_days n) (civil_of_days n') = (n ?= n').
Proof.
  destruct (N.compare_spec n n') as [->|H|H].
  - apply date_compare_refl.
  - now apply date_compare_lt, civil_lt.
  - now apply date_compare_gt, civil_lt.
Qed.

(** The time of day orders as hours, minutes, seconds, milliseconds do. *)
Lemma time_compare (r r' : N) :
  (r ?= r')
  = match r / 3600000 ?= r' / 3600000 with
    | Eq => match r / 60000 mod 60 ?= r' / 60000 mod 60 with
            | Eq => match r / 1000 mod 60 ?= r' / 1000 mod 60 with
                    | Eq => r mod 1000 ?= r' mod 1000
                    | o => o
                    end
            | o => o
            end
    | o => o
    end.
Proof.
  rewrite (compare_div_mod 1000 r r') by lia.
  rewrite (compare_div_mod 60 (r / 1000) (r' / 1000)) by lia.
  rewrite !N.Div0.div_div. change (1000 * 60) with 60000.
  rewrite (compare_div_mod 60 (r / 60000) (r' / 60000)) by lia.
  rewrite !N.Div0.div_div. change (60000 * 60) with 3600000.
  destruct (r / 3600000 ?= r' / 3600000); try reflexivity.
  destruct (r / 60000 mod 60 ?= r' / 60000 mod 60); reflexivity.
Qed.

(** Within the years that print with four digits, ISO strings order, by
    code units, as the times they print. *)
Theorem toISOString_compare (a b : N) :
  year_of a <= 9999 -> year_of b <= 9999 ->
  String.compare (toISOString a) (toISOString b) = (a ?= b).
Proof.
  unfold year_of, toISOString, year_string. intros Ha Hb.
  apply N.leb_le in Ha, Hb. rewrite Ha, Hb. apply N.leb_le in Ha, Hb.
  destruct (civil_in_calendar (a / ms_per_day)) as [Hma Hda].
  destruct (civil_in_calendar (b / ms_per_day)) as [Hmb Hdb].
  assert (Hra : a mod ms_per_day < ms_per_day) by (apply N.mod_lt; discriminate).
  assert (Hrb : b mod ms_per_day < ms_per_day) by (apply N.mod_lt; discriminate).
  rewrite (compare_div_mod ms_per_day a b) by discriminate.
  rewrite <- civil_compare, (time_compare (a mod ms_per_day) (b mod ms_per_day)).
  unfold date_compare.
  set (da := civil_of_days (a / ms_per_day)) in *.
  set (db := civil_of_days (b / ms_per_day)) in *.
  set (ra := a mod ms_per_day) in *. set (rb := b mod ms_per_day) in *.
  unfold ms_per_day in Hra, Hrb.
  repeat first
    [ rewrite compare_app by now rewrite !digits_length
    | rewrite digits_compare
    | rewrite append_cons, append_nil
    | rewrite compare_cons ].
  all: try (apply N.Div0.div_lt_upper_bound; simpl; lia).
  all: try (change (10 ^ N.of_nat 2) with 100; change (10 ^ N.of_nat 3) with 1000;
            change (10 ^ N.of_nat 4) with 10000;
            first [ lia
                  | apply (N.lt_trans _ 60); [apply N.mod_lt|]; lia
                  | apply N.mod_lt; lia ]).
  destruct (year da ?= year db); try reflexivity.
  destruct (month da ?= month db); try reflexivity.
  destruct (day da ?= day db); try reflexivity.
  destruct (ra / 3600000 ?= rb / 3600000); try reflexivity.
  destruct (ra / 60000 mod 60 ?= rb / 60000 mod 60); try reflexivity.
  destruct (ra / 1000 mod 60 ?= rb / 1000 mod 60); try reflexivity.
  destruct (ra mod 1000 ?= rb mod 1000); reflexivity.
Qed.

Corollary toISOString_leb (a b : N) :
  year_of a <= 9999 -> year_of b <= 9999 ->
  String.leb (toISOString a) (toISOString b) = (a <=? b).
Proof.
  intros Ha Hb. unfold String.leb, N.leb.
  now rewrite toISOString_compare.
Qed.

End ClockFacts.

(** ** The store *)

Module StoreFacts.
Import Js Store.

Section Facts.
Context {text : Type}.
Variable JSON_parse : text -> option value.
Variable JSON_stringify : value -> text.
Variable coerced : relop -> value -> value -> bool.

Abbreviation loadReports := (loadReports text JSON_parse).
Abbreviation saveReports := (saveReports text JSON_stringify).
Abbreviation createReport := (createReport text JSON_parse JSON_stringify).
Abbreviation getReports := (getReports text JSON_parse coerced).
Abbreviation getReportsInBounds := (getReportsInBounds text JSON_parse coerced).
Abbreviation run := (run text JSON_parse JSON_stringify).
Abbreviation step := (step text JSON_parse JSON_stringify).
Abbreviation faithful := (faithful text JSON_parse JSON_stringify).

Lemma loadReports_Absent : loadReports Absent = Ok (VArr []).
Proof. reflexivity. Qed.

Lemma loadReports_Unreadable : loadReports Unreadable = Ok (VArr []).
Proof. reflexivity. Qed.

Lemma loadReports_Content (data : text) :
  loadReports (Content data) =
  Ok (match JSON_parse data with Some v => v | None => VArr [] end).
Proof.
  unfold Store.loadReports, parse; simpl.
  destruct (JSON_parse data); reflexivity.
Qed.

Lemma loadReports_returns (m : medium text) : exists v, loadReports m = Ok v.
Proof.
  destruct m as [| |data].
  - eexists; apply loadReports_Absent.
  - eexists; apply loadReports_Unreadable.
  - eexists; apply loadReports_Content.
Qed.

Lemma loadReports_written (v : value) :
  faithful -> json_safe v = true ->
  loadReports (Content (JSON_stringify v)) = Ok v.
Proof.
  intros HF Hv. rewrite loadReports_Content, (HF v Hv). reflexivity.
Qed.

(** What [createReport] does, case by case. *)
Lemma createReport_inv (e : Env text) (reportData : value) (m m' : medium text)
    (r : value) :
  createReport e reportData m = Ok (r, m') ->
  exists items,
    loadReports m = Ok (VArr items)
    /\ newReport text e reportData = Ok r
    /\ m' = snd (saveReports (write e) (VArr (items ++ [r])) m).
Proof.
  unfold Store.createReport. intros H.
  destruct (loadReports_returns m) as [v Hv]. rewrite Hv in H. simpl in H.
  destruct (newReport text e reportData) as [r'|] eqn:Hr; simpl in H; [|discriminate].
  destruct v; simpl in H; try discriminate.
  destruct (Store.saveReports _ _ _ _ _) as [b m''] eqn:Hs.
  injection H as <- <-. exists items. rewrite Hs. auto.
Qed.

Lemma createReport_Ok (e : Env text) (reportData : value) (m : medium text)
    (items : list value) (r : value) :
  loadReports m = Ok (VArr items) ->
  newReport text e reportData = Ok r ->
  createReport e reportData m =
  Ok (r, snd (saveReports (write e) (VArr (items ++ [r])) m)).
Proof.
  intros Hl Hr. unfold Store.createReport. rewrite Hl, Hr. simpl.
  destruct (Store.saveReports _ _ _ _ _); reflexivity.
Qed.

Lemma saveReports_WriteOk (reports : value) (m : medium text) :
  saveReports WriteOk reports m = (true, Content (JSON_stringify reports)).
Proof. reflexivity. Qed.

Lemma saveReports_WriteRefused (reports : value) (m : medium text) :
  saveReports WriteRefused reports m = (false, m).
Proof. reflexivity. Qed.

Lemma saveReports_WriteTorn (residue : text) (reports : value) (m : medium text) :
  saveReports (WriteTorn residue) reports m = (false, Content residue).
Proof. reflexivity. Qed.

(** C10. [loadReports] never throws; when the reports file is absent,
    unreadable, or holds text that does not parse, it returns the empty
    array, so [createReport] starts from an empty store and a write that
    goes through replaces whatever the file held by the one new report. *)
Theorem loadReports_total_empty_on_failure (m : medium text) :
  (exists v, loadReports m = Ok v)
  /\ ((m = Absent \/ m = Unreadable
       \/ exists data, m = Content data /\ JSON_parse data = None) ->
      loadReports m = Ok (VArr [])
      /\ forall e reportData r m',
           write e = WriteOk ->
           createReport e reportData m = Ok (r, m') ->
           m' = Content (JSON_stringify (VArr [r]))).
Proof.
  split; [apply loadReports_returns|].
  intros Hm.
  assert (Hl : loadReports m = Ok (VArr [])).
  { destruct Hm as [->| [->| (data & -> & Hp)]];
      [reflexivity | reflexivity | now rewrite loadReports_Content, Hp]. }
  split; [exact Hl|].
  intros e reportData r m' Hw Hc.
  apply createReport_inv in Hc as (items & Hi & _ & ->).
  rewrite Hl in Hi. injection Hi as <-.
  rewrite Hw. reflexivity.
Qed.

Abbreviation persisted := (persisted text).
Abbreviation intact := (intact text JSON_parse).

(** *** One call on a well-formed store *)

Lemma newReport_fields (e : Env text) (reportData r : value) :
  newReport text e reportData = Ok r -> fields_of r = SCHEMA_FIELDS.
Proof.
  unfold newReport. intros H.
  destruct (get reportData "longitude"); simpl in H; [|discriminate].
  destruct (get reportData "latitude"); simpl in H; [|discriminate].
  destruct (get reportData "safetyScore"); simpl in H; [|discriminate].
  destruct (get reportData "tags"); simpl in H; [|discriminate].
  destruct (get reportData "comment"); simpl in H; [|discriminate].
  injection H as <-. reflexivity.
Qed.

Lemma newReport_reads_data_fields (e : Env text) (d d' : value) :
  (forall k, In k DATA_FIELDS -> get d k = get d' k) ->
  newReport text e d = newReport text e d'.
Proof.
  intros H. unfold newReport.
  rewrite (H "longitude"), (H "latitude"), (H "safetyScore"), (H "tags"),
    (H "comment"); unfold DATA_FIELDS; simpl; auto 10.
Qed.

Lemma newReport_storable (e : Env text) (reportData : value) :
  storable reportData = true ->
  exists r, newReport text e reportData = Ok r /\ json_safe r = true.
Proof.
  destruct reportData; try discriminate. simpl. intros H.
  repeat (apply andb_prop in H as [H ?]).
  eexists. split; [reflexivity|].
  cbn [json_safe forallb snd fst map]. rewrite H, H0, H1, H2, H3. reflexivity.
Qed.

Lemma json_safe_snoc (items : list value) (r : value) :
  json_safe (VArr items) = true -> json_safe r = true ->
  json_safe (VArr (items ++ [r])) = true.
Proof.
  simpl. intros Hi Hr. rewrite forallb_app, Hi. simpl. now rewrite Hr.
Qed.

Lemma step_load (c : Call text) (m : medium text) (items : list value) :
  faithful ->
  loadReports m = Ok (VArr items) -> json_safe (VArr items) = true ->
  storable (call_data c) = true -> intact (write (call_env c)) = true ->
  exists r,
    newReport text (call_env c) (call_data c) = Ok r
    /\ json_safe r = true
    /\ fst (step c m) = Ok r
    /\ loadReports (snd (step c m))
       = Ok (VArr (log_after text (write (call_env c)) items r))
    /\ json_safe (VArr (log_after text (write (call_env c)) items r)) = true.
Proof.
  intros HF Hl Hs Hd Hw.
  destruct (newReport_storable (call_env c) _ Hd) as (r & Hr & Hsafe).
  exists r. unfold Store.step. rewrite (createReport_Ok _ _ _ _ _ Hl Hr).
  split; [exact Hr|]. split; [exact Hsafe|]. split; [reflexivity|]. split.
  - destruct (write (call_env c)) as [| |residue]; simpl.
    + apply loadReports_written; auto using json_safe_snoc.
    + exact Hl.
    + simpl in Hw. rewrite loadReports_Content.
      destruct (JSON_parse residue); [discriminate|reflexivity].
  - destruct (write (call_env c)); simpl log_after; auto using json_safe_snoc.
Qed.

Lemma run_cons (c : Call text) (rest : list (Call text)) (m : medium text) :
  run (c :: rest) m =
  (fst (step c m) :: fst (run rest (snd (step c m))),
   snd (run rest (snd (step c m)))).
Proof.
  simpl. destruct (step c m) as [o m']. simpl.
  destruct (run rest m'). reflexivity.
Qed.

(** The file after a run, read back: the array [persisted] computes. *)
Lemma run_persisted (calls : list (Call text)) (m : medium text)
    (items : list value) :
  faithful ->
  loadReports m = Ok (VArr items) -> json_safe (VArr items) = true ->
  Forall (fun c => storable (call_data c) = true
                   /\ intact (write (call_env c)) = true) calls ->
  loadReports (snd (run calls m)) = Ok (VArr (persisted calls items))
  /\ json_safe (VArr (persisted calls items)) = true.
Proof.
  intros HF. revert m items.
  induction calls as [|c rest IH]; intros m items Hl Hs Hc.
  - simpl. auto.
  - inversion Hc as [|? ? [Hd Hw] Hrest]; subst.
    destruct (step_load c m items HF Hl Hs Hd Hw) as (r & Hr & _ & _ & Hl' & Hs').
    rewrite run_cons. cbn [snd Store.persisted]. rewrite Hr.
    apply IH; auto.
Qed.

Lemma persisted_Forall (P : value -> Prop) (calls : list (Call text))
    (items : list value) :
  (forall e d r, newReport text e d = Ok r -> P r) ->
  Forall P items -> Forall P (persisted calls items).
Proof.
  intros HP. revert items.
  induction calls as [|c rest IH]; intros items Hi; simpl; auto.
  apply IH.
  destruct (newReport text (call_env c) (call_data c)) as [r|] eqn:Hr; auto.
  destruct (write (call_env c)); simpl; auto.
  apply Forall_app. split; auto. constructor; eauto.
Qed.


(** *** Queries *)

Lemma filterM_Ok (cb : value -> result bool) (f : value -> bool)
    (items : list value) :
  (forall r, In r items -> cb r = Ok (f r)) ->
  filterM cb items = Ok (List.filter f items).
Proof.
  induction items as [|r rest IH]; intros H; simpl; [reflexivity|].
  rewrite (H r (or_introl eq_refl)), IH by (intros; apply H; now right).
  simpl. destruct (f r); reflexivity.
Qed.

Lemma filter_map_to_value (f : value -> bool) (log : list SafetyReport) :
  List.filter f (map to_value log)
  = map to_value (List.filter (fun r => f (to_value r)) log).
Proof.
  induction log as [|r rest IH]; simpl; [reflexivity|].
  destruct (f (to_value r)); simpl; now rewrite IH.
Qed.

Lemma filter_twice (A : Type) (f g : A -> bool) (l : list A) :
  List.filter g (List.filter f l) = List.filter (fun x => f x && g x) l.
Proof.
  induction l as [|x rest IH]; simpl; [reflexivity|].
  destruct (f x); simpl; [destruct (g x)|]; now rewrite IH.
Qed.

Lemma filter_timestamp (op : relop) (bound : value) (log : list SafetyReport) :
  filterM (fun r => do ts <- get r "timestamp";
                    Ok (compare_values coerced op ts bound))
          (map to_value log)
  = Ok (map to_value
          (List.filter
             (fun r => compare_values coerced op (VStr (timestamp r)) bound) log)).
Proof.
  rewrite (filterM_Ok _ (fun v => compare_values coerced op (prop v "timestamp") bound)).
  - now rewrite filter_map_to_value.
  - intros r Hr. apply in_map_iff in Hr as (x & <- & _). reflexivity.
Qed.

Lemma getReports_typed (filters : value) (m : medium text)
    (log : list SafetyReport) :
  loadReports m = Ok (VArr (map to_value log)) ->
  filters <> VNull ->
  getReports filters m
  = Ok (VArr (map to_value (List.filter (in_time_range coerced filters) log))).
Proof.
  intros Hl Hf. unfold Store.getReports. rewrite Hl. cbn [bind].
  set (filters' := match filters with VUndefined => VObj [] | _ => filters end).
  assert (Hmin : get filters' "minDate" = Ok (prop filters "minDate")).
  { subst filters'. destruct filters; try reflexivity. now destruct Hf. }
  assert (Hmax : get filters' "maxDate" = Ok (prop filters "maxDate")).
  { subst filters'. destruct filters; try reflexivity. now destruct Hf. }
  rewrite Hmin, Hmax. cbn [bind].
  unfold in_time_range, bound_holds, js_ge, js_le.
  destruct (truthy (prop filters "minDate")); cbn [bind as_array].
  - rewrite filter_timestamp. cbn [bind].
    destruct (truthy (prop filters "maxDate")); cbn [bind as_array].
    + rewrite filter_timestamp. cbn [bind]. now rewrite filter_twice.
    + do 3 f_equal. apply filter_ext. intros r. now rewrite andb_true_r.
  - destruct (truthy (prop filters "maxDate")); cbn [bind as_array].
    + rewrite filter_timestamp. reflexivity.
    + do 3 f_equal. clear. induction log as [|x l IH]; cbn; [reflexivity|now f_equal].
Qed.

Lemma getReportsInBounds_typed (minLat maxLat minLon maxLon : float)
    (m : medium text) (log : list SafetyReport) :
  loadReports m = Ok (VArr (map to_value log)) ->
  getReportsInBounds (VNum minLat) (VNum maxLat) (VNum minLon) (VNum maxLon) m
  = Ok (map to_value (List.filter (in_box minLat maxLat minLon maxLon) log)).
Proof.
  intros Hl. unfold Store.getReportsInBounds. rewrite Hl. cbn [bind as_array].
  rewrite (filterM_Ok _
    (fun v =>
       match prop (prop v "location") "coordinates" with
       | VArr [VNum lon; VNum lat] =>
           PrimFloat.leb minLat lat && PrimFloat.leb lat maxLat
           && PrimFloat.leb minLon lon && PrimFloat.leb lon maxLon
       | _ => false
       end)).
  - rewrite filter_map_to_value. reflexivity.
  - intros r Hr. apply in_map_iff in Hr as (x & <- & _). reflexivity.
Qed.

(** C7. On every stored log, [getReports] returns exactly the reports whose
    timestamp lies within the bounds the filter gives ([minDate] and
    [maxDate], both inclusive), and [getReportsInBounds] exactly the reports
    whose latitude lies in [[minLat, maxLat]] and whose longitude lies in
    [[minLon, maxLon]]; both keep the order of the log. *)
Theorem queries_return_exactly_the_matching_reports (m : medium text)
    (log : list SafetyReport) :
  loadReports m = Ok (VArr (map to_value log)) ->
  (forall filters,
     filters <> VNull ->
     getReports filters m
     = Ok (VArr (map to_value (List.filter (in_time_range coerced filters) log))))
  /\ (forall minLat maxLat minLon maxLon,
        getReportsInBounds (VNum minLat) (VNum maxLat) (VNum minLon) (VNum maxLon) m
        = Ok (map to_value (List.filter (in_box minLat maxLat minLon maxLon) log)))
  /\ (forall filters r,
        In r (List.filter (in_time_range coerced filters) log)
        <-> In r log /\ in_time_range coerced filters r = true)
  /\ (forall minLat maxLat minLon maxLon r,
        In r (List.filter (in_box minLat maxLat minLon maxLon) log)
        <-> In r log /\ in_box minLat maxLat minLon maxLon r = true).
Proof.
  intros Hl. split; [|split; [|split]].
  - intros filters Hf. now apply getReports_typed.
  - intros. now apply getReportsInBounds_typed.
  - intros. apply filter_In.
  - intros. apply filter_In.
Qed.

(** With string bounds the time range is the closed interval of the
    code-unit order on strings; an empty bound counts as not given. *)
Lemma in_time_range_strings (lo hi : string) (r : SafetyReport) :
  lo <> "" -> hi <> "" ->
  in_time_range coerced (VObj [("minDate", VStr lo); ("maxDate", VStr hi)]) r
  = String.leb lo (timestamp r) && String.leb (timestamp r) hi.
Proof.
  intros Hlo Hhi. unfold in_time_range, bound_holds. cbn.
  destruct (String.eqb_spec lo ""); [contradiction|].
  destruct (String.eqb_spec hi ""); [contradiction|]. reflexivity.
Qed.

(** [createReport] on typed data returns the typed report. *)
Lemma newReport_typed (e : Env text) (d : ReportData) :
  newReport text e (data_value d) = Ok (to_value (report_of e d)).
Proof.
  unfold newReport, report_of, to_value. cbn.
  destruct (data_tags d), (data_comment d); reflexivity.
Qed.

Lemma filterM_incl (cb : value -> result bool) (items kept : list value) :
  filterM cb items = Ok kept -> incl kept items.
Proof.
  revert kept. induction items as [|r rest IH]; intros kept H; simpl in H.
  - injection H as <-. apply incl_refl.
  - destruct (cb r) as [keep|]; simpl in H; [|discriminate].
    destruct (filterM cb rest) as [kept'|]; simpl in H; [|discriminate].
    injection H as <-. specialize (IH kept' eq_refl).
    destruct keep; [apply incl_cons; [now left|]|]; now apply incl_tl.
Qed.

(** Whatever the queries return was in the file. *)
Lemma getReports_incl (filters v : value) (m : medium text) (items : list value) :
  loadReports m = Ok (VArr items) ->
  getReports filters m = Ok v ->
  exists kept, v = VArr kept /\ incl kept items.
Proof.
  intros Hl H. unfold Store.getReports in H. rewrite Hl in H. cbn [bind] in H.
  set (f := match filters with VUndefined => VObj [] | _ => filters end) in H.
  destruct (get f "minDate") as [minDate|]; cbn [bind] in H; [|discriminate].
  assert (Hmin : exists kept,
            incl kept items
            /\ (do maxDate <- get f "maxDate";
                do filtered <-
                  (if truthy maxDate then
                     do reports <- as_array (VArr kept);
                     do kept' <- filterM (fun r => do ts <- get r "timestamp";
                                                   Ok (js_le coerced ts maxDate))
                                         reports;
                     Ok (VArr kept')
                   else Ok (VArr kept));
                Ok filtered) = Ok v).
  { destruct (truthy minDate); cbn [bind as_array] in H.
    - destruct (filterM (fun r => do ts <- get r "timestamp";
                                  Ok (js_ge coerced ts minDate)) items)
        as [kept|] eqn:Hk; cbn [bind] in H; [|discriminate].
      exists kept. split; [now apply filterM_incl in Hk|exact H].
    - exists items. split; [apply incl_refl|exact H]. }
  clear H. destruct Hmin as (kept & Hincl & H).
  destruct (get f "maxDate") as [maxDate|]; cbn [bind] in H; [|discriminate].
  destruct (truthy maxDate); cbn [bind as_array] in H.
  - destruct (filterM (fun r => do ts <- get r "timestamp";
                                Ok (js_le coerced ts maxDate)) kept)
      as [kept'|] eqn:Hk; cbn [bind] in H; [|discriminate].
    injection H as <-. exists kept'. split; [reflexivity|].
    apply filterM_incl in Hk. eapply incl_tran; eauto.
  - injection H as <-. eauto.
Qed.

Lemma getReportsInBounds_incl (minLat maxLat minLon maxLon : value)
    (m : medium text) (items kept : list value) :
  loadReports m = Ok (VArr items) ->
  getReportsInBounds minLat maxLat minLon maxLon m = Ok kept ->
  incl kept items.
Proof.
  intros Hl. unfold Store.getReportsInBounds. rewrite Hl. cbn [bind as_array].
  apply filterM_incl.
Qed.

(** C1. A report returned by [createReport] has the six fields of the
    schema and no other; the call reads nothing of its argument but
    [longitude], [latitude], [safetyScore], [tags] and [comment], so
    whatever else the caller holds (an address, an account, a device id)
    cannot reach the report or the file; and a store whose records have
    exactly the schema's fields keeps that property through every sequence
    of calls; and the queries return records of the file only. *)
Theorem reports_hold_schema_fields_only :
  (forall e reportData m r m',
     createReport e reportData m = Ok (r, m') -> fields_of r = SCHEMA_FIELDS)
  /\ (forall e d d' m,
        (forall k, In k DATA_FIELDS -> get d k = get d' k) ->
        createReport e d m = createReport e d' m)
  /\ (forall calls m items,
        faithful ->
        loadReports m = Ok (VArr items) -> json_safe (VArr items) = true ->
        Forall (fun r => fields_of r = SCHEMA_FIELDS) items ->
        Forall (fun c => storable (call_data c) = true
                         /\ intact (write (call_env c)) = true) calls ->
        exists items',
          loadReports (snd (run calls m)) = Ok (VArr items')
          /\ Forall (fun r => fields_of r = SCHEMA_FIELDS) items')
  /\ (forall m items,
        loadReports m = Ok (VArr items) ->
        Forall (fun r => fields_of r = SCHEMA_FIELDS) items ->
        (forall filters v,
           getReports filters m = Ok v ->
           exists kept,
             v = VArr kept /\ Forall (fun r => fields_of r = SCHEMA_FIELDS) kept)
        /\ (forall minLat maxLat minLon maxLon kept,
              getReportsInBounds minLat maxLat minLon maxLon m = Ok kept ->
              Forall (fun r => fields_of r = SCHEMA_FIELDS) kept)).
Proof.
  split; [|split; [|split]].
  - intros e reportData m r m' H.
    apply createReport_inv in H as (items & _ & Hr & _).
    eapply newReport_fields; eauto.
  - intros e d d' m H. unfold Store.createReport.
    rewrite (newReport_reads_data_fields e d d' H). reflexivity.
  - intros calls m items HF Hl Hs Hi Hc.
    exists (persisted calls items). split.
    + apply run_persisted; auto.
    + apply persisted_Forall; auto. apply newReport_fields.
  - intros m items Hl Hi. split.
    + intros filters v Hv.
      destruct (getReports_incl _ _ _ _ Hl Hv) as (kept & -> & Hincl).
      exists kept. split; [reflexivity|].
      apply List.Forall_forall. intros r Hr.
      eapply List.Forall_forall in Hi; eauto.
    + intros minLat maxLat minLon maxLon kept Hk.
      pose proof (getReportsInBounds_incl _ _ _ _ _ _ _ Hl Hk) as Hincl.
      apply List.Forall_forall. intros r Hr.
      eapply List.Forall_forall in Hi; eauto.
Qed.

(** *** Timestamps *)

Lemma newReport_timestamp (e : Env text) (reportData r : value) :
  newReport text e reportData = Ok r ->
  prop r "timestamp" = VStr (Clock.toISOString (now_ts e)).
Proof.
  unfold newReport. intros H.
  destruct (get reportData "longitude"); simpl in H; [|discriminate].
  destruct (get reportData "latitude"); simpl in H; [|discriminate].
  destruct (get reportData "safetyScore"); simpl in H; [|discriminate].
  destruct (get reportData "tags"); simpl in H; [|discriminate].
  destruct (get reportData "comment"); simpl in H; [|discriminate].
  injection H as <-. reflexivity.
Qed.

Lemma StronglySorted_snoc (A : Type) (R : A -> A -> Prop) (l : list A) (x : A) :
  StronglySorted R l -> Forall (fun a => R a x) l -> StronglySorted R (l ++ [x]).
Proof.
  induction 1 as [|a l Hs IH Ha]; intros Hx; simpl.
  - repeat constructor.
  - inversion Hx; subst. constructor; [now apply IH|].
    apply Forall_app. split; [exact Ha|]. now constructor.
Qed.

Lemma stamped_le (t u : N) (r : value) : (t <= u)%N -> stamped t r -> stamped u r.
Proof. intros H (t' & Ht & Hle & Hy). exists t'. repeat split; auto; lia. Qed.

Lemma persisted_ordered (calls : list (Call text)) (items : list value) (t : N) :
  timestamps_ordered coerced items -> Forall (stamped t) items ->
  Forall (N.le t) (clock_readings calls) ->
  StronglySorted N.le (clock_readings calls) ->
  Forall (fun c => (Clock.year_of (now_ts (call_env c)) <= 9999)%N) calls ->
  timestamps_ordered coerced (persisted calls items).
Proof.
  revert items t. induction calls as [|c rest IH]; intros items t Ho Hs Hge Hsorted Hy.
  - exact Ho.
  - cbn [Store.persisted]. cbn [clock_readings map] in Hge, Hsorted.
    inversion Hge as [|? ? Htc _]; subst.
    inversion Hsorted as [|? ? Hrest Hafter]; subst.
    inversion Hy as [|? ? Hyc Hyrest]; subst.
    set (tc := now_ts (call_env c)) in *.
    apply (IH _ tc); auto.
    + destruct (newReport text (call_env c) (call_data c)) as [r|] eqn:Hr; [|exact Ho].
      destruct (write (call_env c)); simpl; [|exact Ho|constructor].
      apply StronglySorted_snoc; [exact Ho|].
      apply newReport_timestamp in Hr. rewrite Hr.
      eapply List.Forall_impl; [|exact Hs].
      intros a (t' & -> & Hle & Hy'). unfold js_le. simpl.
      rewrite ClockFacts.toISOString_leb by assumption.
      apply N.leb_le. fold tc. lia.
    + destruct (newReport text (call_env c) (call_data c)) as [r|] eqn:Hr.
      * assert (Hs' : Forall (stamped tc) items).
        { eapply List.Forall_impl; [|exact Hs]. intros a. now apply stamped_le. }
        destruct (write (call_env c)); simpl; [|exact Hs'|constructor].
        apply Forall_app. split; [exact Hs'|]. constructor; [|constructor].
        exists tc. apply newReport_timestamp in Hr.
        split; [exact Hr|]. split; [lia|exact Hyc].
      * eapply List.Forall_impl; [|exact Hs]. intros a. now apply stamped_le.
Qed.

(** C9 (amended). Every report carries the clock reading of its creation
    as its timestamp, and in a store that started empty the timestamps
    never decrease in append order (equal ones are allowed), provided each
    call reads a clock value that is not below the one the call before it
    read, within the years 1970 to 9999. *)
Theorem timestamps_ordered_under_monotone_clock (calls : list (Call text))
    (m : medium text) :
  faithful ->
  loadReports m = Ok (VArr []) ->
  Forall (fun c => storable (call_data c) = true
                   /\ intact (write (call_env c)) = true) calls ->
  Sorted N.le (clock_readings calls) ->
  Forall (fun c => (Clock.year_of (now_ts (call_env c)) <= 9999)%N) calls ->
  (forall e reportData r,
     newReport text e reportData = Ok r ->
     prop r "timestamp" = VStr (Clock.toISOString (now_ts e)))
  /\ exists items,
       loadReports (snd (run calls m)) = Ok (VArr items)
       /\ timestamps_ordered coerced items.
Proof.
  intros HF Hl Hc Hsorted Hy. split; [apply newReport_timestamp|].
  exists (persisted calls []). split.
  - now apply run_persisted.
  - apply (persisted_ordered calls [] 0).
    + constructor.
    + constructor.
    + apply List.Forall_forall. intros; lia.
    + apply Sorted_StronglySorted; [|exact Hsorted].
      intros x y z. apply N.le_trans.
    + exact Hy.
Qed.

(** *** Further properties of the store *)

Lemma data_storable_storable (d : ReportData) :
  data_storable d = true -> storable (data_value d) = true.
Proof.
  unfold data_storable, storable, data_value. intros H.
  apply andb_prop in H as [H Hscore]. apply andb_prop in H as [Hlat Hlon].
  cbn -[json_number]. rewrite Hlat, Hlon, Hscore. cbn.
  assert (Ht : forallb json_safe (map VStr (data_tags d)) = true).
  { induction (data_tags d) as [|t ts IH]; simpl; auto. }
  rewrite Ht. now destruct (data_comment d).
Qed.

(** X1. On a file that holds an array, [createReport] returns the report made
    of the fields of its argument, a generated id and the clock reading,
    with longitude before latitude in the coordinates. *)
Theorem createReport_returns_the_typed_report (e : Env text) (d : ReportData)
    (m : medium text) (items : list value) :
  loadReports m = Ok (VArr items) ->
  exists m',
    createReport e (data_value d) m = Ok (to_value (report_of e d), m')
    /\ latitude (report_of e d) = data_latitude d
    /\ longitude (report_of e d) = data_longitude d
    /\ safetyScore (report_of e d) = data_safetyScore d
    /\ tags (report_of e d) = data_tags d
    /\ comment (report_of e d) = data_comment d
    /\ timestamp (report_of e d) = Clock.toISOString (now_ts e)
    /\ _id (report_of e d) = generateReportId (now_id e) (random36 e).
Proof.
  intros Hl. eexists. split.
  - apply (createReport_Ok _ _ _ _ _ Hl (newReport_typed e d)).
  - repeat split.
Qed.

(** X2. When the file parses to something that is not an array, [createReport]
    throws a [TypeError] before anything is written. *)
Theorem createReport_throws_on_foreign_file (e : Env text) (reportData : value)
    (data : text) (v : value) :
  JSON_parse data = Some v ->
  (forall items, v <> VArr items) ->
  createReport e reportData (Content data) = Throw TypeError
  /\ step (mkCall e reportData) (Content data) = (Throw TypeError, Content data).
Proof.
  intros Hp Hv.
  assert (H : createReport e reportData (Content data) = Throw TypeError).
  { unfold Store.createReport. rewrite loadReports_Content, Hp. cbn [bind].
    unfold newReport.
    destruct reportData; cbn [get bind]; try reflexivity;
      destruct v; try reflexivity; exfalso; eapply Hv; reflexivity. }
  split; [exact H|]. unfold Store.step. cbn [call_env call_data]. now rewrite H.
Qed.

(** X3. Chronological reading of the time range: with bounds given as the ISO
    strings of two times, [getReports] returns exactly the reports created
    between them, both ends included, as long as all the years print with
    four digits. *)
Theorem getReports_between_instants (m : medium text) (stamps : list (SafetyReport * N))
    (lo hi : N) :
  loadReports m = Ok (VArr (map to_value (map fst stamps))) ->
  Forall (fun rt => timestamp (fst rt) = Clock.toISOString (snd rt)
                    /\ (Clock.year_of (snd rt) <= 9999)%N) stamps ->
  (Clock.year_of lo <= 9999)%N -> (Clock.year_of hi <= 9999)%N ->
  getReports (VObj [ ("minDate", VStr (Clock.toISOString lo));
                     ("maxDate", VStr (Clock.toISOString hi)) ]) m
  = Ok (VArr (map to_value
                (map fst (List.filter
                            (fun rt => (lo <=? snd rt)%N && (snd rt <=? hi)%N)
                            stamps)))).
Proof.
  intros Hl Hs Hlo Hhi.
  rewrite (getReports_typed _ _ _ Hl) by discriminate.
  do 3 f_equal. clear Hl.
  assert (Hne : forall x, (Clock.toISOString x =? "") = false).
  { intros x. unfold Clock.toISOString.
    destruct (Clock.year_string _) as [|c y]; reflexivity. }
  induction stamps as [|[r t] rest IH]; [reflexivity|].
  inversion Hs as [|? ? [Hr Hy] Hrest]; subst. simpl in Hr, Hy.
  assert (Hin : in_time_range coerced
                  (VObj [ ("minDate", VStr (Clock.toISOString lo));
                          ("maxDate", VStr (Clock.toISOString hi)) ]) r
                = (lo <=? t)%N && (t <=? hi)%N).
  { unfold in_time_range, bound_holds.
    change (prop (VObj [ ("minDate", VStr (Clock.toISOString lo));
                         ("maxDate", VStr (Clock.toISOString hi)) ]) "minDate")
      with (VStr (Clock.toISOString lo)).
    change (prop (VObj [ ("minDate", VStr (Clock.toISOString lo));
                         ("maxDate", VStr (Clock.toISOString hi)) ]) "maxDate")
      with (VStr (Clock.toISOString hi)).
    unfold truthy, compare_values. rewrite !Hne, Hr. cbn [negb].
    now rewrite !ClockFacts.toISOString_leb. }
  cbn [map fst snd List.filter]. rewrite Hin, (IH Hrest).
  destruct ((lo <=? t)%N && (t <=? hi)%N); reflexivity.
Qed.

(** *** Ids *)

Lemma split_at_underscore (a a' b b' : string) :
  underscore_free a = true -> underscore_free a' = true ->
  (a ++ String "_" b)%string = (a' ++ String "_" b')%string ->
  a = a' /\ b = b'.
Proof.
  revert a'. induction a as [|c a IH]; intros [|c' a'] Ha Ha' H; simpl in *.
  - injection H as ->. auto.
  - injection H as <- _. discriminate.
  - injection H as -> _. discriminate.
  - injection H as -> H.
    apply andb_prop in Ha as [_ Ha]. apply andb_prop in Ha' as [_ Ha'].
    destruct (IH a' Ha Ha' H) as [-> ->]. auto.
Qed.

Lemma decimal_underscore_free (n : N) : underscore_free (Clock.decimal n) = true.
Proof.
  unfold Clock.decimal.
  assert (H : forall d, underscore_free (NilEmpty.string_of_uint d) = true).
  { induction d; simpl; auto. }
  destruct (N.to_uint n); try apply H; reflexivity.
Qed.

Lemma decimal_inj (n n' : N) : Clock.decimal n = Clock.decimal n' -> n = n'.
Proof.
  unfold Clock.decimal. intros H.
  assert (Hnil : forall k, N.to_uint k <> Decimal.Nil).
  { intros [|p]; simpl; [discriminate|apply DecimalPos.Unsigned.to_uint_nonnil]. }
  apply (f_equal NilZero.uint_of_string) in H.
  rewrite !NilZero.usu in H by apply Hnil.
  injection H as H. now apply DecimalN.Unsigned.to_uint_inj.
Qed.

(** X4. Two generated ids are equal exactly when the clock readings are equal
    and the random draws agree on [substr(2, 9)]. *)
Theorem generateReportId_equal_iff (n n' : N) (s s' : string) :
  generateReportId n s = generateReportId n' s'
  <-> n = n' /\ substr 2 9 s = substr 2 9 s'.
Proof.
  unfold generateReportId. split.
  - intros H. cbn [String.append] in H.
    rewrite !ClockFacts.append_cons, !ClockFacts.append_nil in H.
    repeat (injection H as H).
    apply split_at_underscore in H as [Hd Hs];
      auto using decimal_underscore_free.
    split; [now apply decimal_inj|exact Hs].
  - intros [-> ->]. reflexivity.
Qed.
End Facts.

(** *** On the reference runtime *)

Lemma Ref_faithful : faithful Ref.text Ref.JSON_parse Ref.JSON_stringify.
Proof. intros v _. reflexivity. Defined.

Lemma loadReports_total_empty_on_failure_witness :
  Ref.loadReports (Content None) = Ok (VArr [])
  /\ forall e reportData r m',
       write e = WriteOk ->
       Ref.createReport e reportData (Content None) = Ok (r, m') ->
       m' = Content (Ref.JSON_stringify (VArr [r])).
Proof.
  apply (loadReports_total_empty_on_failure Ref.JSON_parse Ref.JSON_stringify
           (Content None)).
  right. right. exists None. split; reflexivity.
Defined.


Lemma reports_hold_schema_fields_only_witness :
  exists items',
    Ref.loadReports
      (snd (Ref.run [Sample.call WriteOk; Sample.call WriteRefused;
                     Sample.call WriteOk] Unreadable))
    = Ok (VArr items')
    /\ Forall (fun r => fields_of r = SCHEMA_FIELDS) items'.
Proof.
  apply (proj1 (proj2 (proj2 (reports_hold_schema_fields_only
                                Ref.JSON_parse Ref.JSON_stringify Ref.coerced)))
           _ Unreadable []).
  - exact Ref_faithful.
  - reflexivity.
  - reflexivity.
  - constructor.
  - repeat constructor.
Defined.

Lemma queries_return_exactly_the_matching_reports_witness :
  Ref.getReports (VObj [("minDate", VStr "2024-01-01")]) Sample.file
  = Ok (VArr [to_value Sample.berlin])
  /\ Ref.getReports (VObj [("maxDate", VStr "2023-11-14T22:13:20.001Z")]) Sample.file
     = Ok (VArr [to_value Sample.toronto])
  /\ Ref.getReportsInBounds (VNum 40) (VNum 50) (VNum (-80)) (VNum (-70)) Sample.file
     = Ok [to_value Sample.toronto].
Proof.
  pose proof (queries_return_exactly_the_matching_reports
                Ref.JSON_parse Ref.coerced Sample.file Sample.log eq_refl)
    as (Htime & Hbox & _).
  split; [|split].
  - apply (Htime (VObj [("minDate", VStr "2024-01-01")])). discriminate.
  - apply (Htime (VObj [("maxDate", VStr "2023-11-14T22:13:20.001Z")])). discriminate.
  - apply (Hbox 40 50 (-80) (-70))%float.
Defined.

(** C8. Two calls within the same millisecond whose random draws agree on
    the nine digits that [generateReportId] keeps produce the same id, and
    both reports are stored under it. *)
Theorem generateReportId_collides :
  random36 (call_env Sample.twin1) <> random36 (call_env Sample.twin2)
  /\ generateReportId (now_id (call_env Sample.twin1)) (random36 (call_env Sample.twin1))
     = generateReportId (now_id (call_env Sample.twin2)) (random36 (call_env Sample.twin2))
  /\ exists r1 r2,
       Ref.loadReports (snd (Ref.run [Sample.twin1; Sample.twin2] Absent))
       = Ok (VArr [r1; r2])
       /\ prop r1 "_id" = VStr "report_1700000000000_4fzyo82mv"
       /\ prop r2 "_id" = VStr "report_1700000000000_4fzyo82mv".
Proof.
  split; [discriminate|]. split; [vm_compute; reflexivity|].
  do 2 eexists. vm_compute. repeat split.
Qed.

(** C9 (as stated). When the clock is set back between two calls, the
    second report holds the earlier timestamp: the log is not ordered. *)
Lemma timestamps_decrease_when_clock_steps_back :
  ~ exists items,
      Ref.loadReports
        (snd (Ref.run [Sample.at_time 1700000001000; Sample.at_time 1700000000000]
                Absent))
      = Ok (VArr items)
      /\ timestamps_ordered Ref.coerced items.
Proof.
  intros (items & Hl & Ho). vm_compute in Hl. injection Hl as <-.
  inversion Ho as [|? ? _ Hfirst]; subst.
  inversion Hfirst as [|? ? Hle _]; subst.
  vm_compute in Hle. discriminate.
Qed.

Lemma timestamps_ordered_under_monotone_clock_witness :
  exists items,
    Ref.loadReports
      (snd (Ref.run [Sample.at_time 1700000000000; Sample.at_time 1700000000000;
                     Sample.at_time 1700000001000] Absent))
    = Ok (VArr items)
    /\ timestamps_ordered Ref.coerced items.
Proof.
  apply (timestamps_ordered_under_monotone_clock Ref.JSON_parse Ref.JSON_stringify
           Ref.coerced
           [Sample.at_time 1700000000000; Sample.at_time 1700000000000;
            Sample.at_time 1700000001000] Absent).
  - exact Ref_faithful.
  - reflexivity.
  - repeat constructor.
  - repeat constructor; simpl; discriminate.
  - repeat constructor; vm_compute; discriminate.
Defined.

Lemma createReport_returns_the_typed_report_witness :
  exists m',
    Ref.createReport (Sample.env WriteOk) (data_value Sample.data) Sample.file
    = Ok (to_value (report_of (Sample.env WriteOk) Sample.data), m').
Proof.
  destruct (createReport_returns_the_typed_report Ref.JSON_parse Ref.JSON_stringify
              (Sample.env WriteOk) Sample.data Sample.file
              (map to_value Sample.log) eq_refl) as (m' & H & _).
  exists m'. exact H.
Defined.

Lemma createReport_throws_on_foreign_file_witness :
  Ref.createReport (Sample.env WriteOk) (data_value Sample.data)
    (Content (Some (VObj [])))
  = Throw TypeError.
Proof.
  apply (createReport_throws_on_foreign_file Ref.JSON_parse Ref.JSON_stringify
           (Sample.env WriteOk) (data_value Sample.data) (Some (VObj [])) (VObj [])).
  - reflexivity.
  - discriminate.
Defined.

Lemma getReports_between_instants_witness :
  Ref.getReports
    (VObj [ ("minDate", VStr (Clock.toISOString 1700000000000));
            ("maxDate", VStr (Clock.toISOString 1700000000001)) ])
    Sample.file
  = Ok (VArr [to_value Sample.toronto]).
Proof.
  apply (getReports_between_instants Ref.JSON_parse Ref.coerced Sample.file
           [(Sample.toronto, 1700000000001%N); (Sample.berlin, 1709251199999%N)]
           1700000000000 1700000000001).
  - reflexivity.
  - repeat constructor; vm_compute; first [reflexivity | discriminate].
  - vm_compute; discriminate.
  - vm_compute; discriminate.
Defined.

(** [getAllowedTags] returns the seven tags of the catalog, each once, in
    the order of [ALLOWED_TAGS]. *)
Theorem getAllowedTags_is_the_catalog :
  getAllowedTags
  = [ "Harassment"; "Welcoming"; "Police Presence"; "Protest";
      "Crowded"; "Quiet"; "Other" ]
  /\ getAllowedTags = ALLOWED_TAGS
  /\ distinct getAllowedTags = true.
Proof. repeat split. Qed.

(** C2. A file write that fails is swallowed: with the write refused,
    [createReport] returns the new report as on success while the file
    still holds no record; with the write torn, it returns the new report
    as well and the file is left with the torn text, from which the report
    persisted before can no longer be read. *)
Theorem createReport_swallows_write_failure :
  let e := Sample.env WriteRefused in
  let r := to_value (report_of e Sample.data) in
  let torn := Sample.env (WriteTorn None) in
  Ref.createReport e (data_value Sample.data) Absent = Ok (r, Absent)
  /\ Ref.loadReports Absent = Ok (VArr [])
  /\ Ref.loadReports (Content (Some (VArr [r]))) = Ok (VArr [r])
  /\ Ref.createReport torn (data_value Sample.data) (Content (Some (VArr [r])))
     = Ok (to_value (report_of torn Sample.data), Content None)
  /\ Ref.loadReports (Content None) = Ok (VArr []).
Proof. vm_compute. repeat split. Qed.

End StoreFacts.

(** ** The ingestion service *)

Module ServerFacts.
Import Js Store Server.

(** *** Rate limiter *)

Lemma checkAndRecord_opens (lim : Limits) (identity : string) (now : Z)
    (windows : gmap string RateLimitWindow) :
  opens_window lim identity now windows ->
  checkAndRecord lim identity now windows
  = (Allowed, <[identity := mkWindow 1 now]> windows).
Proof.
  unfold opens_window, checkAndRecord.
  destruct (windows !! identity) as [w|]; [|reflexivity].
  intros H. apply Z.leb_le in H. now rewrite H.
Qed.

Lemma checkAndRecord_within (lim : Limits) (identity : string) (now : Z)
    (windows : gmap string RateLimitWindow) (w : RateLimitWindow) :
  windows !! identity = Some w ->
  (now - windowStart w < W lim)%Z ->
  checkAndRecord lim identity now windows
  = if (S (count w) <=? Q lim)%nat
    then (Allowed, <[identity := mkWindow (S (count w)) (windowStart w)]> windows)
    else (Throttled,
          <[identity := mkWindow (Nat.min (S (count w)) (S (Q lim))) (windowStart w)]>
            windows).
Proof.
  intros Hw Hlt. unfold checkAndRecord. rewrite Hw.
  apply Z.leb_gt in Hlt. now rewrite Hlt.
Qed.

(** A call for one identity leaves the windows of the others alone. *)
Lemma checkAndRecord_frame (lim : Limits) (identity other : string) (now : Z)
    (windows : gmap string RateLimitWindow) :
  other <> identity ->
  snd (checkAndRecord lim identity now windows) !! other = windows !! other.
Proof.
  intros Hne. unfold checkAndRecord.
  destruct (windows !! identity) as [w|]; cbn [snd].
  - destruct (W lim <=? now - windowStart w)%Z; cbn [snd].
    + now rewrite lookup_insert_ne.
    + destruct (S (count w) <=? Q lim)%nat; cbn [snd]; now rewrite lookup_insert_ne.
  - now rewrite lookup_insert_ne.
Qed.

(** What the limiter answers an identity, and the window it leaves for it,
    depend on the window of that identity alone. *)
Lemma checkAndRecord_local (lim : Limits) (identity : string) (now : Z)
    (w1 w2 : gmap string RateLimitWindow) :
  w1 !! identity = w2 !! identity ->
  fst (checkAndRecord lim identity now w1) = fst (checkAndRecord lim identity now w2)
  /\ snd (checkAndRecord lim identity now w1) !! identity
     = snd (checkAndRecord lim identity now w2) !! identity.
Proof.
  intros H. unfold checkAndRecord. rewrite H.
  destruct (w2 !! identity) as [w|]; cbn [fst snd].
  - destruct (W lim <=? now - windowStart w)%Z; cbn [fst snd].
    + now rewrite !lookup_insert_eq.
    + destruct (S (count w) <=? Q lim)%nat; cbn [fst snd];
        now rewrite !lookup_insert_eq.
  - now rewrite !lookup_insert_eq.
Qed.

Lemma submissions_local (lim : Limits) (identity : string) (times : list Z)
    (w1 w2 : gmap string RateLimitWindow) :
  w1 !! identity = w2 !! identity ->
  fst (submissions lim identity times w1) = fst (submissions lim identity times w2).
Proof.
  revert w1 w2. induction times as [|now rest IH]; intros w1 w2 H; [reflexivity|].
  cbn [submissions].
  destruct (checkAndRecord_local lim identity now w1 w2 H) as [Hd Hw].
  destruct (checkAndRecord lim identity now w1) as [d1 w1'].
  destruct (checkAndRecord lim identity now w2) as [d2 w2'].
  cbn [fst snd] in Hd, Hw. subst d2. specialize (IH w1' w2' Hw).
  destruct (submissions lim identity rest w1'), (submissions lim identity rest w2').
  cbn [fst] in *. now subst.
Qed.

(** Under any traffic, an identity is answered as if it were alone. *)
Lemma serve_project (lim : Limits) (identity : string) (events : list (string * Z))
    (windows : gmap string RateLimitWindow) :
  decisions_of identity events (fst (serve lim events windows))
  = fst (submissions lim identity (times_of identity events) windows).
Proof.
  revert windows. induction events as [|[i now] rest IH]; intros windows;
    [reflexivity|].
  cbn [serve times_of].
  pose proof (checkAndRecord_frame lim i identity now windows) as Hframe.
  destruct (checkAndRecord lim i now windows) as [d windows'] eqn:Hc.
  specialize (IH windows').
  destruct (serve lim rest windows') as [ds windows''].
  cbn [fst snd decisions_of] in *.
  destruct (String.eqb_spec i identity) as [->|Hne].
  - cbn [submissions]. rewrite Hc.
    destruct (submissions lim identity (times_of identity rest) windows').
    cbn [fst] in *. now rewrite IH.
  - rewrite IH. apply submissions_local. apply Hframe. congruence.
Qed.

(** C4. With the default limits (three per hour), four submissions of one
    identity of which the first opens a window and the other three fall
    within the hour after it are answered Allowed, Allowed, Allowed,
    Throttled, in this order; a submission one hour or more after the first
    opens a fresh window and is Allowed; and the four answers are the same
    when submissions of other identities come in between. *)
Theorem rate_limit_three_then_throttled (identity : string)
    (windows : gmap string RateLimitWindow) (t1 t2 t3 t4 t5 : Z) :
  opens_window default_limits identity t1 windows ->
  (t2 - t1 < 3600000)%Z -> (t3 - t1 < 3600000)%Z -> (t4 - t1 < 3600000)%Z ->
  (3600000 <= t5 - t1)%Z ->
  fst (submissions default_limits identity [t1; t2; t3; t4] windows)
  = [Allowed; Allowed; Allowed; Throttled]
  /\ fst (checkAndRecord default_limits identity t5
            (snd (submissions default_limits identity [t1; t2; t3; t4] windows)))
     = Allowed
  /\ snd (checkAndRecord default_limits identity t5
            (snd (submissions default_limits identity [t1; t2; t3; t4] windows)))
       !! identity
     = Some (mkWindow 1 t5)
  /\ (forall events,
        times_of identity events = [t1; t2; t3; t4] ->
        decisions_of identity events (fst (serve default_limits events windows))
        = [Allowed; Allowed; Allowed; Throttled]).
Proof.
  intros H1 H2 H3 H4 H5.
  assert (Hfour : fst (submissions default_limits identity [t1; t2; t3; t4] windows)
                  = [Allowed; Allowed; Allowed; Throttled]
                  /\ fst (checkAndRecord default_limits identity t5
                            (snd (submissions default_limits identity
                                    [t1; t2; t3; t4] windows)))
                     = Allowed
                  /\ snd (checkAndRecord default_limits identity t5
                            (snd (submissions default_limits identity
                                    [t1; t2; t3; t4] windows)))
                       !! identity
                     = Some (mkWindow 1 t5));
    [|destruct Hfour as (Hds & Hd5 & Hw5); repeat split; auto;
      intros events Ht; now rewrite serve_project, Ht].
  cbn [submissions].
  rewrite (checkAndRecord_opens _ _ _ _ H1).
  rewrite (checkAndRecord_within _ _ t2 _ (mkWindow 1 t1))
    by first [apply lookup_insert_eq | exact H2].
  cbn [count windowStart Nat.leb Q default_limits].
  rewrite (checkAndRecord_within _ _ t3 _ (mkWindow 2 t1))
    by first [apply lookup_insert_eq | exact H3].
  cbn [count windowStart Nat.leb Q default_limits].
  rewrite (checkAndRecord_within _ _ t4 _ (mkWindow 3 t1))
    by first [apply lookup_insert_eq | exact H4].
  cbn [count windowStart Nat.leb Q default_limits Nat.min fst snd].
  rewrite (checkAndRecord_opens _ _ t5).
  - cbn [fst snd]. now rewrite lookup_insert_eq.
  - unfold opens_window. rewrite lookup_insert_eq. exact H5.
Qed.

Lemma rate_limit_three_then_throttled_witness :
  fst (submissions default_limits "203.0.113.7" [0; 1000; 2000; 3599999]%Z ∅)
  = [Allowed; Allowed; Allowed; Throttled]
  /\ fst (checkAndRecord default_limits "203.0.113.7" 3600000
            (snd (submissions default_limits "203.0.113.7"
                    [0; 1000; 2000; 3599999]%Z ∅)))
     = Allowed
  /\ decisions_of "203.0.113.7" traffic (fst (serve default_limits traffic ∅))
     = [Allowed; Allowed; Allowed; Throttled].
Proof.
  destruct (rate_limit_three_then_throttled "203.0.113.7" ∅
              0 1000 2000 3599999 3600000) as (Hfour & Hfifth & _ & Htraffic).
  - exact I.
  - reflexivity.
  - reflexivity.
  - reflexivity.
  - discriminate.
  - split; [exact Hfour|]. split; [exact Hfifth|]. now apply Htraffic.
Defined.


(** *** Tags *)

Lemma allowed_tag_None (v : value) :
  allowed_tag v = None <-> (forall t, In t ALLOWED_TAGS -> v <> VStr t).
Proof.
  unfold allowed_tag. split.
  - intros H t Ht ->.
    destruct (existsb (String.eqb t) ALLOWED_TAGS) eqn:E; [discriminate|].
    assert (existsb (String.eqb t) ALLOWED_TAGS = true); [|congruence].
    apply existsb_exists. exists t. split; [exact Ht|apply String.eqb_refl].
  - intros H. destruct v; try reflexivity.
    destruct (existsb (String.eqb s) ALLOWED_TAGS) eqn:E; [|reflexivity].
    apply existsb_exists in E as (t & Ht & E). apply String.eqb_eq in E. subst.
    now destruct (H t Ht).
Qed.

Lemma allowed_tags_None (items : list value) :
  Exists (fun v => allowed_tag v = None) items -> allowed_tags items = None.
Proof.
  induction 1 as [v rest H|v rest _ IH]; simpl.
  - now rewrite H.
  - rewrite IH. now destruct (allowed_tag v).
Qed.

Lemma allowed_tags_Some (items : list value) (ts : list string) :
  allowed_tags items = Some ts ->
  items = map VStr ts /\ Forall (fun t => In t ALLOWED_TAGS) ts.
Proof.
  revert ts. induction items as [|v rest IH]; intros ts H; simpl in H.
  - injection H as <-. split; [reflexivity|constructor].
  - destruct (allowed_tag v) as [t|] eqn:Ev; [|discriminate].
    destruct (allowed_tags rest) as [ts'|]; [|discriminate].
    injection H as <-. destruct (IH ts' eq_refl) as [-> Hall].
    unfold allowed_tag in Ev. destruct v; try discriminate.
    destruct (existsb (String.eqb s) ALLOWED_TAGS) eqn:E; [|discriminate].
    injection Ev as ->. split; [reflexivity|]. constructor; [|exact Hall].
    apply existsb_exists in E as (t' & Ht & E). apply String.eqb_eq in E. now subst.
Qed.

Lemma validate_Valid_tags (raw : value) (d : ReportData) :
  validate raw = Valid d -> check_tags raw = Some (data_tags d).
Proof.
  unfold validate. intros H.
  destruct (check_location raw) as [[lat lon]|]; [|discriminate].
  destruct (check_score raw); [|discriminate].
  destruct (check_tags raw); [|discriminate].
  destruct (check_comment raw); [|discriminate].
  now injection H as <-.
Qed.

(** C5. A submission whose tag sequence holds a value that is not in the
    Tag Catalog is rejected as a whole: [validate] returns an error (the
    tag error, when location and score were in order) and no payload, so
    the known tags among them are not accepted on their own; the endpoint
    answers without a created report and leaves the file as it was. *)
Theorem unknown_tag_rejects_submission (raw : value) (items : list value) :
  field raw "tags" = VArr items ->
  (exists v, In v items /\ forall t, In t ALLOWED_TAGS -> v <> VStr t) ->
  (exists err, validate raw = Invalid err)
  /\ (check_location raw <> None -> check_score raw <> None ->
      validate raw = Invalid InvalidTags)
  /\ (forall text JSON_parse JSON_stringify lim identity now e st,
        file text (snd (submit text JSON_parse JSON_stringify lim identity now raw e st))
        = file text st
        /\ forall r,
             fst (submit text JSON_parse JSON_stringify lim identity now raw e st)
             <> Created r).
Proof.
  intros Hf (v & Hv & Hunknown).
  assert (Ht : check_tags raw = None).
  { unfold check_tags. rewrite Hf. apply allowed_tags_None.
    apply List.Exists_exists. exists v. split; [exact Hv|now apply allowed_tag_None]. }
  assert (Hval : exists err, validate raw = Invalid err).
  { unfold validate.
    destruct (check_location raw) as [[lat lon]|]; [|eauto].
    destruct (check_score raw); [|eauto]. rewrite Ht. eauto. }
  split; [exact Hval|]. split.
  - intros Hl Hs. unfold validate.
    destruct (check_location raw) as [[lat lon]|]; [|contradiction].
    destruct (check_score raw); [|contradiction]. now rewrite Ht.
  - intros text JSON_parse JSON_stringify lim identity now e st.
    destruct Hval as (err & Herr). unfold submit.
    destruct (checkAndRecord lim identity now (windows text st)) as [[|] ws];
      rewrite ?Herr; cbn [fst snd file]; split; auto; discriminate.
Qed.

(** *** Comments *)

Lemma gt_free_app (a b : string) :
  gt_free (a ++ b) = gt_free a && gt_free b.
Proof.
  induction a as [|c a IH]; simpl; [reflexivity|].
  now rewrite IH, andb_assoc.
Qed.

Lemma gt_free_tag_free (s : string) : gt_free s = true -> tag_free s = true.
Proof.
  induction s as [|c s IH]; simpl; [reflexivity|].
  intros H. apply andb_prop in H as [_ H].
  rewrite H, (IH H). now destruct (Ascii.eqb c "<").
Qed.

Lemma strip_tag_free_both (s : string) :
  tag_free (strip_outside s) = true
  /\ forall pending, gt_free pending = true ->
       tag_free (strip_inside pending s) = true.
Proof.
  induction s as [|c s [IHo IHi]]; simpl.
  - split; [reflexivity|]. intros pending. apply gt_free_tag_free.
  - split.
    + destruct (Ascii.eqb c "<") eqn:E.
      * apply IHi. apply Ascii.eqb_eq in E. now subst.
      * simpl. now rewrite E, IHo.
    + intros pending Hp. destruct (Ascii.eqb c ">") eqn:E; [exact IHo|].
      apply IHi. rewrite gt_free_app, Hp. simpl. now rewrite E.
Qed.

Lemma strip_markup_tag_free (s : string) : tag_free (strip_markup s) = true.
Proof. apply strip_tag_free_both. Qed.

Lemma gt_free_closed (b c : string) : gt_free (b ++ String ">" c) = false.
Proof. rewrite gt_free_app. simpl. apply andb_false_r. Qed.

(** [tag_free] in words: the text cannot be cut as [a < b > c]. *)
Lemma tag_free_no_tag (s : string) :
  tag_free s = true ->
  forall a b c, s <> (a ++ String "<" (b ++ String ">" c))%string.
Proof.
  intros H a. revert s H. induction a as [|x a IH]; intros s H b c ->.
  - simpl in H. now rewrite gt_free_closed in H.
  - simpl in H. apply andb_prop in H as [_ H]. now apply (IH _ H b c).
Qed.

Lemma strip_length_both (s : string) :
  (String.length (strip_outside s) <= String.length s)%nat
  /\ forall pending,
       (String.length (strip_inside pending s)
        <= String.length pending + String.length s)%nat.
Proof.
  induction s as [|c s [IHo IHi]]; simpl.
  - split; [lia|]. intros; lia.
  - split.
    + destruct (Ascii.eqb c "<").
      * specialize (IHi (String c EmptyString)). simpl in IHi. lia.
      * simpl. lia.
    + intros pending. destruct (Ascii.eqb c ">"); [lia|].
      specialize (IHi (pending ++ String c EmptyString)%string).
      rewrite ClockFacts.length_app in IHi. simpl in IHi. lia.
Qed.

(** Text without ["<"] is kept as it is. *)
Lemma strip_markup_plain (s : string) : lt_free s = true -> strip_markup s = s.
Proof.
  unfold strip_markup. induction s as [|c s IH]; simpl; [reflexivity|].
  intros H. apply andb_prop in H as [Hc Hs].
  apply negb_true_iff in Hc. rewrite Hc. now rewrite IH.
Qed.

Lemma strip_inside_closed (pending b c : string) :
  gt_free b = true ->
  strip_inside pending (b ++ String ">" c) = strip_outside c.
Proof.
  revert pending. induction b as [|x b IH]; intros pending H; simpl.
  - reflexivity.
  - simpl in H. apply andb_prop in H as [Hx Hb].
    apply negb_true_iff in Hx. rewrite Hx. now apply IH.
Qed.

(** Plain text, then a tag, then more text: the tag goes, the plain text
    stays, the rest is stripped in turn. *)
Lemma strip_markup_tag (a b c : string) :
  lt_free a = true -> gt_free b = true ->
  strip_markup (a ++ String "<" (b ++ String ">" c))
  = (a ++ strip_markup c)%string.
Proof.
  unfold strip_markup. intros Ha Hb. induction a as [|x a IH]; simpl.
  - now apply strip_inside_closed.
  - simpl in Ha. apply andb_prop in Ha as [Hx Ha].
    apply negb_true_iff in Hx. rewrite Hx. now rewrite IH.
Qed.

Lemma check_comment_Some (raw : value) (c c' : string) :
  field raw "comment" = VStr c ->
  check_comment raw = Some c' ->
  c' = strip_markup c /\ (String.length c' <= 280)%nat.
Proof.
  unfold check_comment, MAX_COMMENT. intros -> H.
  destruct (String.length (strip_markup c) <=? 280)%nat eqn:E; [|discriminate].
  injection H as <-. split; [reflexivity|]. now apply Nat.leb_le.
Qed.

Lemma validate_Valid_comment (raw : value) (d : ReportData) :
  validate raw = Valid d -> check_comment raw = Some (data_comment d).
Proof.
  unfold validate. intros H.
  destruct (check_location raw) as [[lat lon]|]; [|discriminate].
  destruct (check_score raw); [|discriminate].
  destruct (check_tags raw); [|discriminate].
  destruct (check_comment raw); [|discriminate].
  now injection H as <-.
Qed.

(** C6. The comment that reaches the store is the submitted one with every
    tag-like sequence cut out (no ["<"] of it is followed by a [">"], and
    where the comment is plain text, a tag, and more text, the plain text
    is kept as it is and the tag is gone) and has at most 280 characters;
    with the other fields in order, a comment
    is accepted when its stripped length is at most 280, so at exactly 280,
    and rejected with the comment error when it is more, so at 281. At the
    endpoint: a submission answered with a created report has put that
    report, whose comment is the stripped one, at the end of the array in
    the file when the write went through, and it is what [loadReports]
    then reads back; every other answer leaves the file as it was, and a
    comment of more than 280 stripped characters is never answered with a
    created report. *)
Theorem comment_is_stripped_and_bounded (raw : value) (c : string) :
  field raw "comment" = VStr c ->
  (forall d,
     validate raw = Valid d ->
     data_comment d = strip_markup c
     /\ (String.length (data_comment d) <= 280)%nat
     /\ (forall a b t,
          data_comment d <> (a ++ String "<" (b ++ String ">" t))%string)
     /\ (forall a b t,
          lt_free a = true -> gt_free b = true ->
          c = (a ++ String "<" (b ++ String ">" t))%string ->
          data_comment d = (a ++ strip_markup t)%string)
     /\ forall text JSON_parse JSON_stringify e m r m',
          createReport text JSON_parse JSON_stringify e (data_value d) m = Ok (r, m') ->
          prop r "comment" = VStr (strip_markup c))
  /\ (check_location raw <> None -> check_score raw <> None ->
      check_tags raw <> None ->
      ((String.length (strip_markup c) <= 280)%nat -> exists d, validate raw = Valid d)
      /\ ((280 < String.length (strip_markup c))%nat ->
          validate raw = Invalid InvalidComment))
  /\ ((280 < String.length (strip_markup c))%nat ->
      forall d, validate raw <> Valid d)
  /\ (forall text JSON_parse JSON_stringify lim identity now e st,
        let out := submit text JSON_parse JSON_stringify lim identity now raw e st in
        (forall report,
           fst out = Created report ->
           prop report "comment" = VStr (strip_markup c)
           /\ (String.length (strip_markup c) <= 280)%nat
           /\ (forall a b t,
                 prop report "comment"
                 <> VStr (a ++ String "<" (b ++ String ">" t))%string)
           /\ exists items,
                loadReports text JSON_parse (file text st) = Ok (VArr items)
                /\ (write e = WriteOk ->
                    file text (snd out)
                    = Content (JSON_stringify (VArr (items ++ [report])%list))
                    /\ (faithful text JSON_parse JSON_stringify ->
                        json_safe (VArr items) = true ->
                        json_safe report = true ->
                        loadReports text JSON_parse (file text (snd out))
                        = Ok (VArr (items ++ [report])%list))))
        /\ ((forall report, fst out <> Created report) ->
            file text (snd out) = file text st)
        /\ ((280 < String.length (strip_markup c))%nat ->
            (forall report, fst out <> Created report)
            /\ file text (snd out) = file text st)).
Proof.
  intros Hc.
  assert (Hvalid : forall d, validate raw = Valid d ->
            data_comment d = strip_markup c
            /\ (String.length (strip_markup c) <= 280)%nat).
  { intros d Hd. apply validate_Valid_comment in Hd.
    destruct (check_comment_Some raw c _ Hc Hd) as [Heq Hlen].
    split; [exact Heq|]. now rewrite <- Heq. }
  split; [|split; [|split]].
  - intros d Hd. destruct (Hvalid d Hd) as [Heq Hlen].
    split; [exact Heq|]. split; [now rewrite Heq|]. split; [|split].
    + rewrite Heq. apply tag_free_no_tag, strip_markup_tag_free.
    + intros a b t Ha Hb ->. rewrite Heq. now apply strip_markup_tag.
    + intros text JSON_parse JSON_stringify e m r m' Hr.
      apply StoreFacts.createReport_inv in Hr as (items & _ & Hr & _).
      rewrite StoreFacts.newReport_typed in Hr. injection Hr as <-.
      rewrite <- Heq. reflexivity.
  - intros Hl Hs Ht. unfold validate, check_comment, MAX_COMMENT. rewrite Hc.
    destruct (check_location raw) as [[lat lon]|]; [|contradiction].
    destruct (check_score raw); [|contradiction].
    destruct (check_tags raw); [|contradiction].
    split; intros H.
    + apply Nat.leb_le in H. rewrite H. eauto.
    + apply Nat.leb_gt in H. now rewrite H.
  - intros H d Hd. destruct (Hvalid d Hd) as [_ Hlen]. lia.
  - intros text JSON_parse JSON_stringify lim identity now e st. cbv zeta.
    unfold submit.
    destruct (checkAndRecord lim identity now (windows text st)) as [[|] ws];
      cbn [fst snd file].
    2:{ split; [discriminate|]. split; [reflexivity|].
        intros _. split; [discriminate|reflexivity]. }
    destruct (validate raw) as [d|err] eqn:Hd; cbn [fst snd file].
    2:{ split; [discriminate|]. split; [reflexivity|].
        intros _. split; [discriminate|reflexivity]. }
    destruct (Hvalid d eq_refl) as [Heq Hlen].
    destruct (createReport text JSON_parse JSON_stringify e (data_value d)
                (file text st)) as [[r m']|x] eqn:Hr; cbn [fst snd file].
    2:{ split; [discriminate|]. split; [reflexivity|].
        intros _. split; [discriminate|reflexivity]. }
    apply StoreFacts.createReport_inv in Hr as (items & Hload & Hnew & ->).
    rewrite StoreFacts.newReport_typed in Hnew. injection Hnew as <-.
    split; [|split].
    + intros report Hrep. injection Hrep as <-.
      assert (Hcomment : prop (to_value (report_of e d)) "comment"
                         = VStr (strip_markup c))
        by (rewrite <- Heq; reflexivity).
      split; [exact Hcomment|]. split; [exact Hlen|]. split.
      * intros a b t H. rewrite Hcomment in H. injection H as H.
        revert H. apply tag_free_no_tag, strip_markup_tag_free.
      * exists items. split; [exact Hload|]. intros Hw. rewrite Hw.
        cbn [saveReports writeFileSync snd]. split; [reflexivity|].
        intros HF Hitems Hsafe.
        apply StoreFacts.loadReports_written;
          auto using StoreFacts.json_safe_snoc.
    + intros H. exfalso. now apply (H (to_value (report_of e d))).
    + intros H. lia.
Qed.

Lemma unknown_tag_rejects_submission_witness :
  validate (body [VStr "Harassment"; VStr "Selfie"] "Test report")
  = Invalid InvalidTags
  /\ forall e st,
       file Ref.text
         (snd (submit Ref.text Ref.JSON_parse Ref.JSON_stringify default_limits
                 "203.0.113.7" 0
                 (body [VStr "Harassment"; VStr "Selfie"] "Test report") e st))
       = file Ref.text st.
Proof.
  pose proof (unknown_tag_rejects_submission
                (body [VStr "Harassment"; VStr "Selfie"] "Test report")
                [VStr "Harassment"; VStr "Selfie"] eq_refl) as H.
  destruct H as (_ & Hvalidate & Hsubmit).
  - exists (VStr "Selfie"). split; [simpl; auto|].
    intros t Ht. unfold ALLOWED_TAGS in Ht. simpl in Ht.
    intuition (subst; discriminate).
  - split.
    + apply Hvalidate; discriminate.
    + intros e st. apply Hsubmit.
Defined.

Lemma comment_is_stripped_and_bounded_witness :
  String.length (strip_markup (bold 280)) = 280%nat
  /\ (exists d, validate (body [] (bold 280)) = Valid d)
  /\ String.length (strip_markup (bold 281)) = 281%nat
  /\ validate (body [] (bold 281)) = Invalid InvalidComment
  /\ (let out := submit Ref.text Ref.JSON_parse Ref.JSON_stringify default_limits
                   "203.0.113.7" 0 (body [] "Nice <b>place</b>")
                   (Sample.env WriteOk) (mkState Ref.text ∅ Absent) in
      exists report,
        fst out = Created report
        /\ prop report "comment" = VStr "Nice place"
        /\ Ref.loadReports (file Ref.text (snd out)) = Ok (VArr [report]))
  /\ file Ref.text
       (snd (submit Ref.text Ref.JSON_parse Ref.JSON_stringify default_limits
               "203.0.113.7" 0 (body [] (bold 281))
               (Sample.env WriteOk) (mkState Ref.text ∅ Sample.file)))
     = Sample.file.
Proof.
  split; [reflexivity|]. split; [|split; [reflexivity|split; [|split]]].
  - apply (comment_is_stripped_and_bounded (body [] (bold 280)) (bold 280) eq_refl);
      try discriminate.
    apply Nat.leb_le. reflexivity.
  - apply (comment_is_stripped_and_bounded (body [] (bold 281)) (bold 281) eq_refl);
      try discriminate.
    apply Nat.leb_le. reflexivity.
  - destruct (comment_is_stripped_and_bounded
                (body [] "Nice <b>place</b>") "Nice <b>place</b>" eq_refl)
      as (_ & _ & _ & Hsubmit).
    destruct (Hsubmit Ref.text Ref.JSON_parse Ref.JSON_stringify default_limits
                "203.0.113.7" 0%Z (Sample.env WriteOk) (mkState Ref.text ∅ Absent))
      as (Hcreated & _).
    cbv zeta.
    destruct (fst (submit Ref.text Ref.JSON_parse Ref.JSON_stringify default_limits
                     "203.0.113.7" 0 (body [] "Nice <b>place</b>")
                     (Sample.env WriteOk) (mkState Ref.text ∅ Absent)))
      as [report| | |] eqn:Hout; try (vm_compute in Hout; discriminate).
    exists report. split; [reflexivity|].
    destruct (Hcreated report eq_refl) as (Hcomment & _ & _ & items & Hload & Hfile).
    split; [exact Hcomment|].
    vm_compute in Hload. injection Hload as <-.
    destruct (Hfile eq_refl) as [_ Hback].
    apply Hback; [exact StoreFacts.Ref_faithful|reflexivity|].
    vm_compute in Hout. injection Hout as <-. reflexivity.
  - apply (comment_is_stripped_and_bounded (body [] (bold 281)) (bold 281) eq_refl).
    apply Nat.leb_le. reflexivity.
Defined.

Example strip_markup_script :
  strip_markup "Nice <b>place</b>, <script>alert(1)</script> stay safe"
  = "Nice place, alert(1) stay safe".
Proof. reflexivity. Qed.

Example strip_markup_unclosed : strip_markup "a < b and c" = "a < b and c".
Proof. reflexivity. Qed.

Example strip_markup_nested : strip_markup "<<b>script>" = "script>".
Proof. reflexivity. Qed.

End ServerFacts.

(** ** The submit handler *)

Module ClientFacts.
Import Js Client.

Lemma trim_start_length (s : string) :
  (String.length (trim_start s) <= String.length s)%nat.
Proof.
  induction s as [|c s IH]; simpl; [lia|].
  destruct (is_space c); simpl; lia.
Qed.

Lemma trim_end_length (s : string) :
  (String.length (trim_end s) <= String.length s)%nat.
Proof.
  induction s as [|c s IH]; simpl; [lia|].
  destruct (trim_end s); [destruct (is_space c)|]; simpl in *; lia.
Qed.

Lemma trim_length (s : string) : (String.length (trim s) <= String.length s)%nat.
Proof.
  unfold trim. pose proof (trim_end_length (trim_start s)).
  pose proof (trim_start_length s). lia.
Qed.

(** X5. [handleSubmit] sends nothing when the comment as typed has more than
    280 characters, whatever it would be after stripping; with a score and
    a location, a comment of up to 280 characters is sent, trimmed. *)
Theorem handleSubmit_bounds_the_typed_comment
    (send : Request -> option ApiError) (form : Form) :
  ((280 < String.length (comment form))%nat ->
   fst (handleSubmit send form) = None)
  /\ (forall request,
        fst (handleSubmit send form) = Some request ->
        req_comment request = trim (comment form)
        /\ (String.length (comment form) <= 280)%nat
        /\ (String.length (req_comment request) <= 280)%nat
        /\ req_tags request = selectedTags form
        /\ req_safetyScore request = safetyScore form
        /\ location form = Some (req_latitude request, req_longitude request))
  /\ (truthy (safetyScore form) = true -> location form <> None ->
      (String.length (comment form) <= 280)%nat ->
      exists request, fst (handleSubmit send form) = Some request).
Proof.
  unfold handleSubmit. split; [|split].
  - intros H. apply Nat.ltb_lt in H.
    destruct (truthy (safetyScore form)); simpl; [|reflexivity].
    destruct (location form) as [[lat lon]|]; [|reflexivity].
    now rewrite H.
  - intros request.
    destruct (truthy (safetyScore form)); simpl; [|discriminate].
    destruct (location form) as [[lat lon]|]; [|discriminate].
    destruct (280 <? String.length (comment form))%nat eqn:E; [discriminate|].
    apply Nat.ltb_ge in E.
    intros H.
    assert (Hreq : request = mkRequest lat lon (safetyScore form) (selectedTags form)
                               (trim (comment form))).
    { destruct (send _); simpl in H; now injection H as <-. }
    subst request. simpl. repeat split; auto.
    pose proof (trim_length (comment form)). lia.
  - intros Hs Hl Hc. rewrite Hs. simpl.
    destruct (location form) as [[lat lon]|]; [|contradiction].
    apply Nat.ltb_ge in Hc. rewrite Hc.
    destruct (send _); eauto.
Qed.

Lemma handleSubmit_bounds_the_typed_comment_witness :
  fst (handleSubmit accepting (sample_form (Server.bold 280))) = None
  /\ exists request,
       fst (handleSubmit accepting
              (sample_form ("  " ++ Server.repeat_char "x" 278)))
       = Some request.
Proof.
  split.
  - apply (handleSubmit_bounds_the_typed_comment accepting
             (sample_form (Server.bold 280))).
    apply Nat.ltb_lt. reflexivity.
  - apply (handleSubmit_bounds_the_typed_comment accepting
             (sample_form ("  " ++ Server.repeat_char "x" 278))).
    + reflexivity.
    + discriminate.
    + apply Nat.leb_le. reflexivity.
Defined.

Example trim_spaces : trim (String "009" " hello world  ") = "hello world".
Proof. reflexivity. Qed.

Example error_alert_429 :
  error_alert (mkApiError (Some 429%N) None None) = TooManyReports
  /\ error_alert (mkApiError None None (Some "rate limit reached")) = RateLimitExceeded
  /\ error_alert (mkApiError (Some 500%N) None (Some "boom")) = SubmissionError.
Proof. repeat split. Qed.

End ClientFacts.

(** ** The store on inputs of any shape *)

Module StoreEdge.
Import Js Store Shapes StoreFacts.

Section Edge.
Context {text : Type}.
Variable JSON_parse : text -> option value.
Variable JSON_stringify : value -> text.
Variable coerced : relop -> value -> value -> bool.

Abbreviation loadReports := (loadReports text JSON_parse).
Abbreviation createReport := (createReport text JSON_parse JSON_stringify).
Abbreviation getReports := (getReports text JSON_parse coerced).
Abbreviation getReportsInBounds := (getReportsInBounds text JSON_parse coerced).
Abbreviation faithful := (faithful text JSON_parse JSON_stringify).

Lemma newReport_throws (e : Env text) (reportData : value) :
  newReport text e reportData
  = if nullish reportData then Throw TypeError
    else Ok (VObj [ ("_id", VStr (generateReportId (now_id e) (random36 e)));
                    ("location",
                      VObj [ ("type", VStr "Point");
                             ("coordinates", VArr [prop reportData "longitude";
                                                   prop reportData "latitude"]) ]);
                    ("safetyScore", prop reportData "safetyScore");
                    ("tags", js_or (prop reportData "tags") (VArr []));
                    ("comment", js_or (prop reportData "comment") (VStr ""));
                    ("timestamp", VStr (Clock.toISOString (now_ts e))) ]).
Proof. destruct reportData; reflexivity. Qed.

(** X6. [createReport] throws exactly when its argument is [undefined] or
    [null] or the reports file parses to something that is not an array;
    what it throws is a [TypeError]; in every other case it returns a
    report, whatever the fields of the argument are. *)
Theorem createReport_throws_iff (e : Env text) (reportData : value)
    (m : medium text) :
  (createReport e reportData m = Throw TypeError
   <-> (nullish reportData = true
        \/ exists v, loadReports m = Ok v /\ forall items, v <> VArr items))
  /\ (forall x, createReport e reportData m = Throw x -> x = TypeError)
  /\ ((exists r m', createReport e reportData m = Ok (r, m'))
      <-> (nullish reportData = false
           /\ exists items, loadReports m = Ok (VArr items))).
Proof.
  destruct (loadReports_returns JSON_parse m) as [v Hv].
  unfold Store.createReport. rewrite Hv, newReport_throws. cbn [bind].
  destruct (nullish reportData) eqn:Hn; cbn [bind].
  - split; [|split].
    + split; auto.
    + intros x H. now injection H as <-.
    + split; [intros (r & m' & H); discriminate|intros [H _]; discriminate].
  - destruct v as [| | | | |items|]; cbn [bind push].
    6: { destruct (Store.saveReports _ _ _ _ _) as [b m'].
         split; [|split].
         - split; [discriminate|].
           intros [H|(v & H & Hne)]; [discriminate|].
           injection H as <-. exfalso. eapply Hne. reflexivity.
         - discriminate.
         - split; eauto. }
    all: (split; [|split];
          [ split; [intros _; right; eexists; split; [reflexivity|]; intros items H;
                    discriminate H
                   |reflexivity]
          | intros x' H; now injection H as <-
          | split; [intros (r & m' & H); discriminate H
                   |intros [_ (items & H)]; discriminate H] ]).
Qed.

(** X7. Field by field, for an argument of any shape: the coordinates are
    the argument's [longitude] then [latitude] as they are (or [undefined]),
    the score is its [safetyScore] as it is, falsy [tags] (missing, [null],
    [false], [0], the empty string) become the empty array and a falsy
    [comment] the empty string, anything truthy is stored as given. *)
Theorem createReport_stores_fields_as_given (e : Env text) (reportData r : value)
    (m m' : medium text) :
  createReport e reportData m = Ok (r, m') ->
  prop (prop r "location") "type" = VStr "Point"
  /\ prop (prop r "location") "coordinates"
     = VArr [prop reportData "longitude"; prop reportData "latitude"]
  /\ prop r "safetyScore" = prop reportData "safetyScore"
  /\ prop r "tags"
     = (if truthy (prop reportData "tags") then prop reportData "tags" else VArr [])
  /\ prop r "comment"
     = (if truthy (prop reportData "comment") then prop reportData "comment"
        else VStr "")
  /\ prop r "_id" = VStr (generateReportId (now_id e) (random36 e))
  /\ prop r "timestamp" = VStr (Clock.toISOString (now_ts e)).
Proof.
  intros H. apply createReport_inv in H as (items & _ & Hr & _).
  rewrite newReport_throws in Hr.
  destruct (nullish reportData); [discriminate|]. injection Hr as <-.
  repeat split.
Qed.

(** *** [getReports] *)

Lemma timestamp_cb (op : relop) (bound r : value) :
  (do ts <- get r "timestamp"; Ok (compare_values coerced op ts bound))
  = if nullish r then Throw TypeError
    else Ok (compare_values coerced op (prop r "timestamp") bound).
Proof. destruct r; reflexivity. Qed.

Lemma filter_by_timestamp (op : relop) (bound : value) (items : list value) :
  filterM (fun r => do ts <- get r "timestamp";
                    Ok (compare_values coerced op ts bound)) items
  = if existsb nullish items then Throw TypeError
    else Ok (List.filter
               (fun r => compare_values coerced op (prop r "timestamp") bound)
               items).
Proof.
  induction items as [|r rest IH]; [reflexivity|].
  cbn [filterM existsb List.filter]. rewrite timestamp_cb.
  destruct (nullish r); [reflexivity|]. cbn [bind orb]. rewrite IH.
  destruct (existsb nullish rest); reflexivity.
Qed.

Lemma filter_nullish (f : value -> bool) (items : list value) :
  existsb nullish items = false -> existsb nullish (List.filter f items) = false.
Proof.
  induction items as [|r rest IH]; [reflexivity|].
  cbn [existsb List.filter]. intros H. apply orb_false_elim in H as [Hr Hrest].
  destruct (f r); cbn [existsb]; rewrite ?Hr; auto.
Qed.

Lemma getReports_array (filters : value) (m : medium text)
    (items : list value) :
  loadReports m = Ok (VArr items) ->
  filters <> VNull ->
  getReports filters m
  = if (truthy (prop filters "minDate") || truthy (prop filters "maxDate"))
       && existsb nullish items
    then Throw TypeError
    else Ok (VArr (List.filter (within coerced filters) items)).
Proof.
  intros Hl Hf. unfold Store.getReports. rewrite Hl. cbn [bind].
  set (filters' := match filters with VUndefined => VObj [] | _ => filters end).
  assert (Hmin : get filters' "minDate" = Ok (prop filters "minDate")).
  { subst filters'. destruct filters; try reflexivity. now destruct Hf. }
  assert (Hmax : get filters' "maxDate" = Ok (prop filters "maxDate")).
  { subst filters'. destruct filters; try reflexivity. now destruct Hf. }
  rewrite Hmin, Hmax. cbn [bind]. unfold within, js_ge, js_le.
  destruct (truthy (prop filters "minDate")); cbn [bind as_array orb andb].
  - rewrite filter_by_timestamp.
    destruct (existsb nullish items) eqn:Hn; cbn [bind]; [reflexivity|].
    destruct (truthy (prop filters "maxDate")); cbn [bind as_array].
    + rewrite filter_by_timestamp, filter_nullish by exact Hn. cbn [bind].
      now rewrite filter_twice.
    + do 2 f_equal. apply filter_ext. intros r. now rewrite andb_true_r.
  - destruct (truthy (prop filters "maxDate")); cbn [bind as_array andb].
    + rewrite filter_by_timestamp.
      destruct (existsb nullish items); reflexivity.
    + do 2 f_equal. clear. induction items as [|x l IH]; cbn;
        [reflexivity|now f_equal].
Qed.

(** X8. On an array of records of any shape: without a bound that is
    given, [getReports] returns the array as it is; with one, a [null]
    among the records makes it throw a [TypeError], and otherwise it
    returns, in order, exactly the records whose [timestamp] satisfies
    every given bound, so a record without a timestamp is left out. *)
Theorem getReports_on_any_records (filters : value) (m : medium text)
    (items : list value) :
  loadReports m = Ok (VArr items) ->
  filters <> VNull ->
  (getReports filters m
   = if (truthy (prop filters "minDate") || truthy (prop filters "maxDate"))
        && existsb nullish items
     then Throw TypeError
     else Ok (VArr (List.filter (within coerced filters) items)))
  /\ (forall r, In r items -> prop r "timestamp" = VUndefined ->
      truthy (prop filters "minDate") || truthy (prop filters "maxDate") = true ->
      within coerced filters r = false).
Proof.
  intros Hl Hf. split; [now apply getReports_array|].
  intros r _ Hts Hb. unfold within, js_ge, js_le. rewrite Hts.
  apply orb_prop in Hb as [-> | ->]; cbn [compare_values andb];
    [reflexivity|apply andb_false_r].
Qed.

(** X9. Without bounds ([getReports()], an empty filter, or bounds that are
    all falsy) [getReports] hands back whatever [loadReports] returned, an
    array or not; [getReports(null)] throws a [TypeError]. *)
Theorem getReports_without_bounds (filters : value) (m : medium text) :
  (filters <> VNull ->
   truthy (prop filters "minDate") = false ->
   truthy (prop filters "maxDate") = false ->
   getReports filters m = loadReports m)
  /\ getReports VNull m = Throw TypeError.
Proof.
  destruct (loadReports_returns JSON_parse m) as [v Hv].
  unfold Store.getReports. rewrite Hv. cbn [bind]. split; [|reflexivity].
  intros Hf Hmin Hmax.
  set (filters' := match filters with VUndefined => VObj [] | _ => filters end).
  assert (H1 : get filters' "minDate" = Ok (prop filters "minDate")).
  { subst filters'. destruct filters; try reflexivity. now destruct Hf. }
  assert (H2 : get filters' "maxDate" = Ok (prop filters "maxDate")).
  { subst filters'. destruct filters; try reflexivity. now destruct Hf. }
  rewrite H1, H2. cbn [bind]. rewrite Hmin, Hmax. reflexivity.
Qed.

(** *** [getReportsInBounds] *)

Lemma bounds_cb (minLat maxLat minLon maxLon r : value) :
  (do location <- get r "location";
   do coordinates <- get location "coordinates";
   do lonlat <- destructure2 coordinates;
   let '(lon, lat) := lonlat in
   Ok (js_ge coerced lat minLat && js_le coerced lat maxLat
       && js_ge coerced lon minLon && js_le coerced lon maxLon))
  = if locatable r then Ok (inside coerced minLat maxLat minLon maxLon r)
    else Throw TypeError.
Proof.
  unfold locatable, inside, lonlat.
  destruct r; try reflexivity;
    cbn [get prop bind nullish negb andb];
    try (destruct (lookup_prop "location" props) as [| | | | |its|ps] eqn:Hloc;
         try reflexivity;
         cbn [get prop bind nullish negb andb];
         try (destruct (lookup_prop "coordinates" ps); reflexivity)).
Qed.

Lemma filter_by_bounds (minLat maxLat minLon maxLon : value) (items : list value) :
  filterM
    (fun report =>
       do location <- get report "location";
       do coordinates <- get location "coordinates";
       do lonlat <- destructure2 coordinates;
       let '(lon, lat) := lonlat in
       Ok (js_ge coerced lat minLat && js_le coerced lat maxLat
           && js_ge coerced lon minLon && js_le coerced lon maxLon))
    items
  = if forallb locatable items
    then Ok (List.filter (inside coerced minLat maxLat minLon maxLon) items)
    else Throw TypeError.
Proof.
  induction items as [|r rest IH]; [reflexivity|].
  cbn [filterM forallb List.filter]. rewrite bounds_cb.
  destruct (locatable r); [|reflexivity]. cbn [bind andb]. rewrite IH.
  destruct (forallb locatable rest); reflexivity.
Qed.

(** X10. On an array of records of any shape, [getReportsInBounds] throws a
    [TypeError] as soon as one record has no usable [location.coordinates]
    (a [null] record, a missing or [null] location, coordinates that are
    not an array or a string), whatever the box and wherever the record
    stands; otherwise it returns, in order, exactly the records inside the
    box. On a file that is not an array it throws as well. *)
Theorem getReportsInBounds_on_any_records (minLat maxLat minLon maxLon : value)
    (m : medium text) :
  (forall items,
     loadReports m = Ok (VArr items) ->
     getReportsInBounds minLat maxLat minLon maxLon m
     = if forallb locatable items
       then Ok (List.filter (inside coerced minLat maxLat minLon maxLon) items)
       else Throw TypeError)
  /\ (forall v,
        loadReports m = Ok v -> (forall items, v <> VArr items) ->
        getReportsInBounds minLat maxLat minLon maxLon m = Throw TypeError).
Proof.
  split.
  - intros items Hl. unfold Store.getReportsInBounds. rewrite Hl.
    cbn [bind as_array]. apply filter_by_bounds.
  - intros v Hl Hv. unfold Store.getReportsInBounds. rewrite Hl. cbn [bind].
    destruct v; try reflexivity. exfalso. eapply Hv. reflexivity.
Qed.

(** X11. A call of [getReportsInBounds] that leaves out a bound (it is then
    [undefined]) returns no report at all, on every array of records with
    usable coordinates. *)
Theorem getReportsInBounds_missing_bound (minLat maxLat minLon maxLon : value)
    (m : medium text) (items : list value) :
  loadReports m = Ok (VArr items) ->
  forallb locatable items = true ->
  minLat = VUndefined \/ maxLat = VUndefined
  \/ minLon = VUndefined \/ maxLon = VUndefined ->
  getReportsInBounds minLat maxLat minLon maxLon m = Ok [].
Proof.
  intros Hl Hloc Hmissing.
  unfold Store.getReportsInBounds. rewrite Hl. cbn [bind as_array].
  rewrite filter_by_bounds, Hloc. f_equal. clear Hl Hloc.
  assert (Hu : forall op a, compare_values coerced op a VUndefined = false).
  { intros op a. now destruct a. }
  induction items as [|r rest IH]; [reflexivity|].
  cbn [List.filter]. rewrite IH.
  assert (Hin : inside coerced minLat maxLat minLon maxLon r = false).
  { unfold inside, js_ge, js_le. destruct (lonlat r) as [lon lat].
    destruct Hmissing as [-> | [-> | [-> | ->]]]; rewrite Hu;
      rewrite ?andb_false_r; reflexivity. }
  now rewrite Hin.
Qed.

(** *** Queries after a call of [createReport] *)

Lemma newReport_locatable (e : Env text) (reportData r : value) :
  newReport text e reportData = Ok r ->
  locatable r = true /\ nullish r = false
  /\ lonlat r = (prop reportData "longitude", prop reportData "latitude").
Proof.
  rewrite newReport_throws. destruct (nullish reportData); [discriminate|].
  intros H. injection H as <-. repeat split.
Qed.

Lemma createReport_written (e : Env text) (reportData r : value)
    (m m' : medium text) (items : list value) :
  faithful ->
  loadReports m = Ok (VArr items) -> json_safe (VArr items) = true ->
  storable reportData = true -> write e = WriteOk ->
  createReport e reportData m = Ok (r, m') ->
  loadReports m' = Ok (VArr (items ++ [r])).
Proof.
  intros HF Hl Hs Hd Hw H.
  apply createReport_inv in H as (items' & Hl' & Hr & ->).
  rewrite Hl in Hl'. injection Hl' as <-.
  destruct (newReport_storable e _ Hd) as (r' & Hr' & Hsafe).
  rewrite Hr in Hr'. injection Hr' as <-.
  rewrite Hw. cbn [snd saveReports writeFileSync].
  apply loadReports_written; auto using json_safe_snoc.
Qed.

(** X12. A query after a call of [createReport] whose write went through
    returns what it returned before the call, followed by the new report
    when the new report matches: in the box when the [longitude] and
    [latitude] of the argument are, in the time range when its clock
    reading is. Nothing that was returned before is lost or reordered. *)
Theorem queries_after_createReport (e : Env text) (reportData r : value)
    (m m' : medium text) (items : list value)
    (minLat maxLat minLon maxLon filters : value) :
  faithful ->
  loadReports m = Ok (VArr items) -> json_safe (VArr items) = true ->
  storable reportData = true -> write e = WriteOk ->
  createReport e reportData m = Ok (r, m') ->
  (forall before,
     getReportsInBounds minLat maxLat minLon maxLon m = Ok before ->
     getReportsInBounds minLat maxLat minLon maxLon m'
     = Ok (before ++ if inside coerced minLat maxLat minLon maxLon r then [r] else [])%list)
  /\ (forall before,
        filters <> VNull ->
        truthy (prop filters "minDate") || truthy (prop filters "maxDate") = true ->
        getReports filters m = Ok (VArr before) ->
        getReports filters m'
        = Ok (VArr (before ++ if within coerced filters r then [r] else [])%list))
  /\ getReports VUndefined m' = Ok (VArr (items ++ [r])%list)
  /\ inside coerced minLat maxLat minLon maxLon r
     = js_ge coerced (prop reportData "latitude") minLat
       && js_le coerced (prop reportData "latitude") maxLat
       && js_ge coerced (prop reportData "longitude") minLon
       && js_le coerced (prop reportData "longitude") maxLon
  /\ prop r "timestamp" = VStr (Clock.toISOString (now_ts e)).
Proof.
  intros HF Hl Hs Hd Hw H.
  pose proof (createReport_written _ _ _ _ _ _ HF Hl Hs Hd Hw H) as Hl'.
  apply createReport_inv in H as (_ & _ & Hr & _).
  destruct (newReport_locatable _ _ _ Hr) as (Hloc & Hnull & Hll).
  split; [|split; [|split; [|split]]].
  - intros before. unfold Store.getReportsInBounds. rewrite Hl, Hl'.
    cbn [bind as_array]. rewrite !filter_by_bounds, forallb_app.
    destruct (forallb locatable items); [|discriminate].
    intros Hb. injection Hb as <-. cbn [forallb andb]. rewrite Hloc.
    cbn [andb]. now rewrite List.filter_app.
  - intros before Hf Hb. rewrite (getReports_array _ _ _ Hl Hf).
    rewrite (getReports_array _ _ _ Hl' Hf), Hb. cbn [andb].
    rewrite existsb_app. cbn [existsb]. rewrite Hnull. cbn [orb].
    rewrite orb_false_r.
    destruct (existsb nullish items); [discriminate|].
    intros Hq. injection Hq as <-. now rewrite List.filter_app.
  - unfold Store.getReports. now rewrite Hl'.
  - unfold inside. now rewrite Hll.
  - rewrite newReport_throws in Hr.
    destruct (nullish reportData); [discriminate|]. now injection Hr as <-.
Qed.

(** X13. What [createReport] returns does not depend on what becomes of the
    file write: with the same clock readings and the same random draw it
    returns the same report whether the write goes through, is refused or
    is torn. The file afterwards holds the old array with the new report
    appended, or is as it was, or holds what the torn write left. *)
Theorem createReport_returns_whatever_the_write (e : Env text)
    (reportData r : value) (m m' : medium text) :
  createReport e reportData m = Ok (r, m') ->
  exists items,
    loadReports m = Ok (VArr items)
    /\ m' = match write e with
            | WriteOk => Content (JSON_stringify (VArr (items ++ [r])))
            | WriteRefused => m
            | WriteTorn residue => Content residue
            end
    /\ forall w, exists m'',
         createReport (mkEnv (now_id e) (random36 e) (now_ts e) w) reportData m
         = Ok (r, m'').
Proof.
  intros H. apply createReport_inv in H as (items & Hl & Hr & ->).
  exists items. split; [exact Hl|]. split.
  - destruct (write e); reflexivity.
  - intros w. eexists. eapply createReport_Ok; [exact Hl|].
    rewrite newReport_throws in Hr |- *. exact Hr.
Qed.
(** *** Ids over a sequence of calls *)

Lemma generateReportId_inj (n n' : N) (s s' : string) :
  generateReportId n s = generateReportId n' s' ->
  n = n' /\ substr 2 9 s = substr 2 9 s'.
Proof.
  unfold generateReportId. intros H. cbn [String.append] in H.
  rewrite !ClockFacts.append_cons, !ClockFacts.append_nil in H.
  repeat (injection H as H).
  apply split_at_underscore in H as [Hd Hs]; auto using decimal_underscore_free.
  split; [now apply decimal_inj|exact Hs].
Qed.

Lemma step_id (c : Call text) (m : medium text) (r : value) :
  fst (Store.step text JSON_parse JSON_stringify c m) = Ok r ->
  prop r "_id"
  = VStr (generateReportId (now_id (call_env c)) (random36 (call_env c))).
Proof.
  unfold Store.step.
  destruct (Store.createReport _ _ _ _ _ _) as [[r' m']|x] eqn:H; [|discriminate].
  cbn [fst]. intros Hr. injection Hr as ->.
  apply createReport_inv in H as (_ & _ & Hr & _).
  rewrite newReport_throws in Hr.
  destruct (nullish (call_data c)); [discriminate|]. now injection Hr as <-.
Qed.

Lemma returned_ids (calls : list (Call text)) :
  forall (m : medium text) (x : value),
    In x (ids (returned (fst (Store.run text JSON_parse JSON_stringify calls m)))) ->
    exists c, In c calls
              /\ x = VStr (generateReportId (now_id (call_env c))
                                            (random36 (call_env c))).
Proof.
  induction calls as [|c rest IH]; intros m x; [intros []|].
  rewrite run_cons. cbn [fst].
  destruct (fst (Store.step text JSON_parse JSON_stringify c m)) as [r|e] eqn:Hs;
    cbn [returned ids map].
  - intros [<-|Hin].
    + exists c. split; [now left|]. now apply (step_id c m).
    + destruct (IH _ _ Hin) as (c' & Hc' & Hx). exists c'. split; [now right|exact Hx].
  - intros Hin. destruct (IH _ _ Hin) as (c' & Hc' & Hx).
    exists c'. split; [now right|exact Hx].
Qed.

(** X24. Over any sequence of [createReport] calls, on any file and whatever
    becomes of the writes: when no two calls agree both on the clock
    reading of [Date.now()] and on the nine characters kept of the random
    draw, no two of the reports returned have the same [_id]. *)
Theorem ids_distinct_when_sources_differ (calls : list (Call text))
    (m : medium text) :
  List.NoDup (map id_source calls) ->
  List.NoDup (ids (returned (fst (Store.run text JSON_parse JSON_stringify calls m)))).
Proof.
  revert m. induction calls as [|c rest IH]; intros m Hnd; [constructor|].
  inversion Hnd as [|? ? Hnotin Hrest]; subst.
  rewrite run_cons. cbn [fst].
  destruct (fst (Store.step text JSON_parse JSON_stringify c m)) as [r|e] eqn:Hs;
    cbn [returned ids map]; [|now apply IH].
  constructor; [|now apply IH].
  intros Hin. apply returned_ids in Hin as (c' & Hc' & Hx).
  rewrite (step_id c m r Hs) in Hx.
  assert (Hid : generateReportId (now_id (call_env c)) (random36 (call_env c))
                = generateReportId (now_id (call_env c')) (random36 (call_env c')))
    by congruence.
  apply generateReportId_inj in Hid as [Hn Hd].
  apply Hnotin. apply in_map_iff. exists c'. split; [|exact Hc'].
  unfold id_source. now rewrite Hn, Hd.
Qed.
End Edge.

(** *** On the reference runtime *)

Lemma createReport_stores_fields_as_given_witness :
  match Ref.createReport (Sample.env WriteOk) bare Absent with
  | Ok (r, _) =>
      prop (prop r "location") "coordinates" = VArr [VUndefined; VStr "north"]
      /\ prop r "tags" = VArr []
      /\ prop r "comment" = VStr ""
  | Throw _ => False
  end.
Proof.
  destruct (Ref.createReport (Sample.env WriteOk) bare Absent)
    as [[r m']|x] eqn:H.
  - destruct (createReport_stores_fields_as_given
                Ref.JSON_parse Ref.JSON_stringify _ _ _ _ _ H)
      as (_ & Hc & _ & Ht & Hm & _).
    split; [exact Hc|]. split; [exact Ht|exact Hm].
  - vm_compute in H. discriminate.
Defined.

Lemma getReports_on_any_records_witness :
  Ref.getReports (VObj [("minDate", VStr "2000")]) mixed_file
  = Ok (VArr [to_value Sample.toronto; to_value Sample.berlin]).
Proof.
  apply (getReports_on_any_records Ref.JSON_parse Ref.coerced
           (VObj [("minDate", VStr "2000")]) mixed_file
           [to_value Sample.toronto; legacy; to_value Sample.berlin]).
  - reflexivity.
  - discriminate.
Defined.

Lemma getReportsInBounds_missing_bound_witness :
  Ref.getReportsInBounds (VNum 40) (VNum 50) (VNum (-80)) VUndefined Sample.file
  = Ok [].
Proof.
  apply (getReportsInBounds_missing_bound Ref.JSON_parse Ref.coerced
           (VNum 40) (VNum 50) (VNum (-80)) VUndefined Sample.file
           (map to_value Sample.log)).
  - reflexivity.
  - reflexivity.
  - right. right. right. reflexivity.
Defined.

Lemma queries_after_createReport_witness :
  match Ref.createReport (Sample.env WriteOk) (data_value Sample.data) Sample.file with
  | Ok (r, m') =>
      Ref.getReportsInBounds (VNum 40) (VNum 50) (VNum (-80)) (VNum (-70)) m'
      = Ok [to_value Sample.toronto; r]
      /\ Ref.getReports (VObj [("minDate", VStr "2024")]) m'
         = Ok (VArr [to_value Sample.berlin])
  | Throw _ => False
  end.
Proof.
  destruct (Ref.createReport (Sample.env WriteOk) (data_value Sample.data) Sample.file)
    as [[r m']|x] eqn:H.
  - destruct (queries_after_createReport
                Ref.JSON_parse Ref.JSON_stringify Ref.coerced
                (Sample.env WriteOk) (data_value Sample.data) r Sample.file m'
                (map to_value Sample.log)
                (VNum 40) (VNum 50) (VNum (-80)) (VNum (-70))
                (VObj [("minDate", VStr "2024")])
                StoreFacts.Ref_faithful eq_refl eq_refl eq_refl eq_refl H)
      as (Hbox & Htime & _ & Hin & Hts).
    split.
    + unfold Ref.getReportsInBounds.
      rewrite (Hbox [to_value Sample.toronto] eq_refl), Hin. reflexivity.
    + unfold Ref.getReports.
      rewrite (Htime [to_value Sample.berlin]); [|discriminate|reflexivity|reflexivity].
      unfold within. rewrite Hts. reflexivity.
  - vm_compute in H. discriminate.
Defined.

Lemma createReport_returns_whatever_the_write_witness :
  exists m'',
    Ref.createReport (Sample.env (WriteTorn None)) (data_value Sample.data) Sample.file
    = Ok (to_value (report_of (Sample.env WriteOk) Sample.data), m'').
Proof.
  destruct (createReport_returns_whatever_the_write
              Ref.JSON_parse Ref.JSON_stringify
              (Sample.env WriteOk) (data_value Sample.data)
              (to_value (report_of (Sample.env WriteOk) Sample.data))
              Sample.file
              (Content (Some (VArr (map to_value Sample.log
                                      ++ [to_value (report_of (Sample.env WriteOk)
                                                              Sample.data)]))))
              eq_refl)
    as (items & _ & _ & H).
  exact (H (WriteTorn None)).
Defined.

Lemma ids_distinct_when_sources_differ_witness :
  List.NoDup (ids (returned (fst (Ref.run [Sample.twin1; Sample.at_time 1700000000001]
                                          Sample.file)))).
Proof.
  apply (ids_distinct_when_sources_differ Ref.JSON_parse Ref.JSON_stringify
           [Sample.twin1; Sample.at_time 1700000000001] Sample.file).
  constructor; [|constructor; [intros []|constructor]].
  intros [H|[]]. vm_compute in H. discriminate.
Defined.

End StoreEdge.

(** ** The report form *)

Module ModalFacts.
Import Js Client ReportModal.
Local Open Scope list_scope.

Lemma array_includes_In (tags : list string) (tag : string) :
  array_includes tags tag = true <-> In tag tags.
Proof.
  unfold array_includes. rewrite existsb_exists. split.
  - intros (t & Hin & Heq). apply String.eqb_eq in Heq. now subst.
  - intros Hin. exists tag. split; [exact Hin|apply String.eqb_refl].
Qed.

Lemma toggleTag_selected (tag : string) (st : State) :
  selectedTags (form (toggleTag tag st))
  = if array_includes (selectedTags (form st)) tag
    then List.filter (fun t => negb (t =? tag)) (selectedTags (form st))
    else (selectedTags (form st) ++ [tag])%list.
Proof.
  unfold toggleTag. now destruct (array_includes _ _).
Qed.

Lemma toggleTag_other (tag : string) (st : State) :
  safetyScore (form (toggleTag tag st)) = safetyScore (form st)
  /\ comment (form (toggleTag tag st)) = comment (form st)
  /\ location (form (toggleTag tag st)) = location (form st)
  /\ availableTags (toggleTag tag st) = availableTags st
  /\ submitting (toggleTag tag st) = submitting st.
Proof.
  unfold toggleTag. now destruct (array_includes _ _).
Qed.

Lemma toggleTag_NoDup (tag : string) (st : State) :
  List.NoDup (selectedTags (form st)) -> List.NoDup (selectedTags (form (toggleTag tag st))).
Proof.
  intros H. rewrite toggleTag_selected.
  destruct (array_includes _ _) eqn:E.
  - now apply List.NoDup_filter.
  - apply List.NoDup_app; auto.
    + constructor; [intros []|constructor].
    + intros t Hin [<-|[]]. apply array_includes_In in Hin. congruence.
Qed.

Lemma toggleTag_includes (tag t : string) (st : State) :
  array_includes (selectedTags (form (toggleTag tag st))) t
  = xorb (array_includes (selectedTags (form st)) t) (t =? tag).
Proof.
  rewrite toggleTag_selected.
  destruct (array_includes (selectedTags (form st)) tag) eqn:E.
  - destruct (t =? tag) eqn:Et.
    + apply String.eqb_eq in Et as ->. rewrite E. cbn [xorb].
      destruct (array_includes (List.filter _ _) tag) eqn:F; [|reflexivity].
      apply array_includes_In, filter_In in F as [_ F].
      now rewrite String.eqb_refl in F.
    + rewrite xorb_false_r.
      destruct (array_includes (selectedTags (form st)) t) eqn:G.
      * apply array_includes_In. apply filter_In. split.
        -- now apply array_includes_In.
        -- now rewrite Et.
      * destruct (array_includes (List.filter _ _) t) eqn:F; [|reflexivity].
        apply array_includes_In, filter_In in F as [F _].
        apply array_includes_In in F. congruence.
  - unfold array_includes in *. rewrite existsb_app. cbn [existsb].
    rewrite orb_false_r. destruct (t =? tag) eqn:Et.
    + apply String.eqb_eq in Et as ->. rewrite E. reflexivity.
    + now rewrite xorb_false_r, orb_false_r.
Qed.

(** Pressing tag buttons one after the other. *)
Lemma presses_includes (presses : list string) (t : string) (st : State) :
  array_includes
    (selectedTags (form (fold_left (fun st tag => toggleTag tag st) presses st))) t
  = xorb (array_includes (selectedTags (form st)) t)
         (Nat.odd (count_occ string_dec presses t)).
Proof.
  revert st. induction presses as [|tag rest IH]; intros st.
  - cbn. now rewrite xorb_false_r.
  - cbn [fold_left count_occ]. rewrite IH, toggleTag_includes.
    destruct (string_dec tag t) as [->|Hne].
    + rewrite String.eqb_refl, Nat.odd_succ, <- Nat.negb_odd.
      destruct (array_includes _ _), (Nat.odd _); reflexivity.
    + assert (Et : (t =? tag) = false) by (apply String.eqb_neq; congruence).
      rewrite Et, xorb_false_r. reflexivity.
Qed.

(** X14. Starting from a reset form, after any sequence of presses on tag
    buttons a tag is selected exactly when it was pressed an odd number of
    times, no tag is selected twice, and nothing else in the form has
    changed. *)
Theorem toggleTag_selects_by_parity (presses : list string) (st : State) :
  let st' := fold_left (fun st tag => toggleTag tag st) presses (resetForm st) in
  List.NoDup (selectedTags (form st'))
  /\ (forall t, In t (selectedTags (form st'))
                <-> Nat.odd (count_occ string_dec presses t) = true)
  /\ safetyScore (form st') = VNull
  /\ comment (form st') = ""
  /\ location (form st') = None.
Proof.
  cbv zeta. split; [|split].
  - generalize (resetForm st) (List.NoDup_nil string : List.NoDup (selectedTags (form (resetForm st)))).
    induction presses as [|tag rest IH]; intros st0 H; cbn [fold_left]; auto.
    apply IH. now apply toggleTag_NoDup.
  - intros t. rewrite <- array_includes_In, presses_includes. reflexivity.
  - generalize (resetForm st)
      (conj eq_refl (conj eq_refl eq_refl)
       : safetyScore (form (resetForm st)) = VNull
         /\ comment (form (resetForm st)) = ""
         /\ location (form (resetForm st)) = None).
    induction presses as [|tag rest IH]; intros st0 H; cbn [fold_left]; auto.
    apply IH. destruct (toggleTag_other tag st0) as (-> & -> & -> & _). exact H.
Qed.

(** *** The requests the form can send *)

Lemma handleSubmit_request (send : Request -> option ApiError) (form : Form)
    (r : Request) :
  fst (handleSubmit send form) = Some r ->
  truthy (safetyScore form) = true
  /\ location form = Some (req_latitude r, req_longitude r)
  /\ (String.length (comment form) <= 280)%nat
  /\ r = mkRequest (req_latitude r) (req_longitude r) (safetyScore form)
                   (selectedTags form) (trim (comment form)).
Proof.
  unfold handleSubmit.
  destruct (truthy (safetyScore form)); cbn [negb]; [|discriminate].
  destruct (location form) as [[lat lon]|]; [|discriminate].
  destruct (280 <? String.length (comment form))%nat eqn:Ec; [discriminate|].
  apply Nat.ltb_ge in Ec. intros H.
  assert (Hr : r = mkRequest lat lon (safetyScore form) (selectedTags form)
                             (trim (comment form))).
  { destruct (send _); cbn in H; now injection H as <-. }
  subst r. auto.
Qed.

Lemma invariant_seen (catalog : list string) (seen seen' : list (float * float))
    (st : State) :
  incl seen seen' -> invariant catalog seen st -> invariant catalog seen' st.
Proof.
  intros Hi (H1 & H2 & H3 & H4 & H5). repeat split; auto.
Qed.

Lemma step_invariant (catalog : list string) (seen : list (float * float))
    (ev : event) (st : State) :
  incl FALLBACK_TAGS catalog ->
  tags_within catalog ev ->
  invariant catalog seen st ->
  invariant catalog (seen ++ delivered [ev]) (fst (step ev st))
  /\ forall r, snd (step ev st) = Some r ->
               well_formed catalog (seen ++ delivered [ev]) r.
Proof.
  intros Hfb Hev Hinv.
  assert (Hinv' : invariant catalog (seen ++ delivered [ev]) st)
    by (eapply invariant_seen; [|exact Hinv]; apply incl_appl, incl_refl).
  destruct Hinv' as (Hscore & Hnd & Hsel & Hav & Hloc).
  destruct ev as [| |o|o|i|i|text|outcome]; cbn [step fst snd].
  - split; [|discriminate]. repeat split; auto.
  - split; [|discriminate]. repeat split; cbn; auto using List.NoDup_nil.
    + intros t [].
    + discriminate.
  - split; [|discriminate].
    destruct o as [|status [[lat lon]|]]; cbn [getCurrentLocation fst].
    + repeat split; auto.
    + destruct (status =? "granted") eqn:E; cbn [negb fst].
      * repeat split; auto. cbn. intros p Hp. injection Hp as <-.
        apply in_or_app. right. cbn. rewrite E. now left.
      * repeat split; auto.
    + destruct (status =? "granted"); cbn [negb fst]; repeat split; auto.
  - split; [|discriminate].
    destruct o as [|[|] [tags|]]; cbn [loadTags]; repeat split; cbn; auto.
    intros t [].
  - destruct (nth_error safetyScores i) as [score|] eqn:E; cbn [fst snd].
    + split; [|discriminate]. repeat split; auto. cbn [setSafetyScore form safetyScore].
      right. apply in_map. eapply nth_error_In; eauto.
    + split; [|discriminate]. repeat split; auto.
  - destruct (nth_error (availableTags st) i) as [tag|] eqn:E; cbn [fst snd].
    + split; [|discriminate].
      destruct (toggleTag_other tag st) as (Hs & Hc & Hl & Ha & _).
      unfold invariant. rewrite Hs, Hl, Ha. repeat split; auto.
      * now apply toggleTag_NoDup.
      * rewrite toggleTag_selected. destruct (array_includes _ _).
        -- intros t Ht. apply filter_In in Ht as [Ht _]. auto.
        -- apply incl_app; auto. intros t [<-|[]].
           apply Hav. eapply nth_error_In; eauto.
    + split; [|discriminate]. repeat split; auto.
  - split; [|discriminate]. repeat split; auto.
  - destruct (submit_disabled st) eqn:Ed; cbn [fst snd].
    + split; [|discriminate]. repeat split; auto.
    + destruct (handleSubmit (fun _ => outcome) (form st)) as [[r|] a] eqn:Eh;
        cbn [fst snd].
      * split; [repeat split; auto|].
        intros r' Hr. injection Hr as <-.
        assert (Hf : fst (handleSubmit (fun _ => outcome) (form st)) = Some r)
          by now rewrite Eh.
        destruct (handleSubmit_request _ _ _ Hf) as (Ht & Hl & Hc & ->).
        repeat split; cbn; auto.
        -- destruct Hscore as [Hn|Hin]; [rewrite Hn in Ht; discriminate|exact Hin].
        -- pose proof (ClientFacts.trim_length (comment (form st))). lia.
      * split; [|discriminate]. repeat split; auto.
Qed.

Lemma delivered_cons (ev : event) (events : list event) :
  delivered (ev :: events) = delivered [ev] ++ delivered events.
Proof. unfold delivered. cbn [flat_map]. now rewrite app_nil_r. Qed.

Lemma sent_well_formed (catalog : list string) (events : list event) :
  incl FALLBACK_TAGS catalog ->
  Forall (tags_within catalog) events ->
  forall seen st,
    invariant catalog seen st ->
    Forall (well_formed catalog (seen ++ delivered events)) (sent events st).
Proof.
  intros Hfb. induction 1 as [|ev rest Hev Hrest IH]; intros seen st Hinv.
  - constructor.
  - destruct (step_invariant catalog seen ev st Hfb Hev Hinv) as [Hst Hout].
    cbn [sent]. destruct (step ev st) as [st' [r|]]; cbn [fst snd] in *.
    + constructor.
      * destruct (Hout r eq_refl) as (H1 & H2 & H3 & H4 & H5).
        repeat split; auto. rewrite delivered_cons, app_assoc.
        apply in_or_app. now left.
      * rewrite delivered_cons, app_assoc. now apply IH.
    + rewrite delivered_cons, app_assoc. now apply IH.
Qed.

(** X15. Whatever the user does and whenever the pending calls settle, a
    request the form sends carries one of the five scores, distinct tags
    (so at most seven) that are all from the catalog as long as the
    backend's tag lists are, a comment of at most 280 characters, and a
    position that [getCurrentLocation] obtained. *)
Theorem form_sends_only_well_formed_requests (events : list event) :
  Forall (tags_within Store.ALLOWED_TAGS) events ->
  Forall (fun r =>
            In (req_safetyScore r) (map VNum safetyScores)
            /\ List.NoDup (req_tags r)
            /\ incl (req_tags r) Store.ALLOWED_TAGS
            /\ (length (req_tags r) <= 7)%nat
            /\ (String.length (req_comment r) <= 280)%nat
            /\ In (req_latitude r, req_longitude r) (delivered events))
         (sent events mount).
Proof.
  intros Hev.
  assert (Hinv : invariant Store.ALLOWED_TAGS [] mount).
  { unfold invariant. cbn. split; [now left|]. split; [constructor|].
    split; [intros t []|]. split; [intros t []|discriminate]. }
  pose proof (sent_well_formed Store.ALLOWED_TAGS events (incl_refl _) Hev [] mount Hinv)
    as H.
  eapply List.Forall_impl; [|exact H].
  intros r (H1 & H2 & H3 & H4 & H5). repeat split; auto.
  change 7%nat with (length Store.ALLOWED_TAGS). now apply NoDup_incl_length.
Qed.

(** X16. After [resetForm] nothing is sent until a score button has been
    pressed and a position has been obtained: a sequence of events that
    lacks either sends no request. *)
Theorem nothing_sent_without_score_and_position (events : list event) (st : State) :
  Forall (fun ev => forall i, ev = ScorePressed i -> nth_error safetyScores i = None)
         events
  \/ delivered events = [] ->
  sent events (resetForm st) = [].
Proof.
  intros [Hno|Hno].
  - assert (Hst : safetyScore (form (resetForm st)) = VNull) by reflexivity.
    revert Hst. generalize (resetForm st). clear st.
    induction Hno as [|ev rest Hev Hrest IH]; intros st Hst; [reflexivity|].
    cbn [sent].
    assert (H : snd (step ev st) = None
                /\ safetyScore (form (fst (step ev st))) = VNull).
    { destruct ev as [| |o|o|i|i|text|outcome]; cbn [step fst snd]; auto.
      - destruct o as [|status [[lat lon]|]]; cbn [getCurrentLocation fst]; auto;
          destruct (status =? "granted"); auto.
      - destruct o as [|[|] tags]; auto.
      - rewrite (Hev i eq_refl). auto.
      - destruct (nth_error (availableTags st) i) as [tag|]; cbn [fst snd]; auto.
        split; [reflexivity|]. now destruct (toggleTag_other tag st) as (-> & _).
      - unfold submit_disabled. rewrite Hst. cbn. auto. }
    destruct (step ev st) as [st' out]. cbn [fst snd] in H. destruct H as [-> H].
    now apply IH.
  - assert (Hst : location (form (resetForm st)) = None) by reflexivity.
    revert Hst. generalize (resetForm st). clear st. revert Hno.
    induction events as [|ev rest IH]; intros Hno st Hst; [reflexivity|].
    rewrite delivered_cons in Hno. apply app_eq_nil in Hno as [Hev Hrest].
    cbn [sent].
    assert (H : snd (step ev st) = None
                /\ location (form (fst (step ev st))) = None).
    { destruct ev as [| |o|o|i|i|text|outcome]; cbn [step fst snd]; auto.
      - destruct o as [|status [[lat lon]|]]; cbn [getCurrentLocation fst]; auto.
        + cbn in Hev. destruct (status =? "granted"); [discriminate|auto].
        + destruct (status =? "granted"); auto.
      - destruct o as [|[|] tags]; auto.
      - destruct (nth_error safetyScores i); auto.
      - destruct (nth_error (availableTags st) i) as [tag|]; cbn [fst snd]; auto.
        split; [reflexivity|]. now destruct (toggleTag_other tag st) as (_ & _ & -> & _).
      - unfold submit_disabled. rewrite Hst.
        rewrite orb_true_r. auto. }
    destruct (step ev st) as [st' out]. cbn [fst snd] in H. destruct H as [-> H].
    now apply IH.
Qed.

Lemma form_sends_only_well_formed_requests_witness :
  Forall (fun r =>
            In (req_safetyScore r) (map VNum safetyScores)
            /\ List.NoDup (req_tags r)
            /\ incl (req_tags r) Store.ALLOWED_TAGS
            /\ (length (req_tags r) <= 7)%nat
            /\ (String.length (req_comment r) <= 280)%nat
            /\ In (req_latitude r, req_longitude r) (delivered session))
         (sent session mount)
  /\ sent session mount
     = [ mkRequest 43.6532 (-79.3832) (VNum 4) ["Crowded"] "calm tonight" ].
Proof.
  split; [|reflexivity].
  apply (form_sends_only_well_formed_requests session).
  repeat constructor.
Defined.

Lemma nothing_sent_without_score_and_position_witness :
  sent [ TagsSettled TagsRejected; ScorePressed 2; TagPressed 1;
         LocationSettled (PermissionStatus "denied" (Some (43.6532, -79.3832)%float));
         SubmitPressed None ] (resetForm mount) = [].
Proof.
  apply (nothing_sent_without_score_and_position
           [ TagsSettled TagsRejected; ScorePressed 2; TagPressed 1;
             LocationSettled (PermissionStatus "denied" (Some (43.6532, -79.3832)%float));
             SubmitPressed None ] mount).
  right. reflexivity.
Defined.

End ModalFacts.

(** ** The secure storage utility *)

Module StorageFacts.
Import Js SecureStorage.

Lemma append_assoc (a b c : string) :
  ((a ++ b) ++ c)%string = (a ++ (b ++ c))%string.
Proof.
  induction a as [|x a IH];
    rewrite ?ClockFacts.append_nil, ?ClockFacts.append_cons; congruence.
Qed.

Lemma append_nil_r (a : string) : (a ++ "")%string = a.
Proof.
  induction a as [|x a IH];
    rewrite ?ClockFacts.append_nil, ?ClockFacts.append_cons; congruence.
Qed.

Lemma nonempty_eqb (s : string) : s <> "" -> (s =? "") = false.
Proof. intros H. now apply String.eqb_neq. Qed.

Lemma nonempty_length (s : string) : s <> "" -> (String.length s =? 0)%nat = false.
Proof. destruct s; [congruence|reflexivity]. Qed.

Lemma valid_key (k : string) : k <> "" -> not_a_nonempty_string (VStr k) = false.
Proof.
  intros H. unfold not_a_nonempty_string. cbn. now rewrite (nonempty_eqb k H).
Qed.

Lemma valid_key_inv (key : value) :
  not_a_nonempty_string key = false -> exists k, key = VStr k /\ k <> "".
Proof.
  unfold not_a_nonempty_string. destruct key; cbn; try discriminate;
    rewrite ?orb_true_r; try discriminate.
  rewrite orb_false_r. intros H. exists s. split; [reflexivity|].
  intros ->. discriminate.
Qed.

(** *** Calls to [SecureStore] *)

Lemma native_settles {A} (op : gmap string string -> A * gmap string string)
    (d : Device) :
  match native op d with
  | (Resolved a, d') =>
      hd None (faults d) = None /\ a = fst (op (items d))
      /\ d' = mkDevice (snd (op (items d))) (tl (faults d)) (draws d)
  | (Rejected message, d') =>
      hd None (faults d) = Some message
      /\ d' = mkDevice (items d) (tl (faults d)) (draws d)
  end.
Proof.
  unfold native. destruct (faults d) as [|[message|] rest];
    cbn [hd tl]; try destruct (op (items d)); cbn [fst snd]; auto.
Qed.

Lemma native_through {A} (op : gmap string string -> A * gmap string string)
    (d : Device) :
  hd None (faults d) = None ->
  native op d = (Resolved (fst (op (items d))),
                 mkDevice (snd (op (items d))) (tl (faults d)) (draws d)).
Proof.
  intros H. pose proof (native_settles op d) as Hn.
  destruct (native op d) as [[a|message] d'].
  - destruct Hn as (_ & -> & ->). reflexivity.
  - destruct Hn as [Hn _]. congruence.
Qed.

Lemma settles_await {A B} (failed : Device -> Prop) (mid : A -> Device -> Prop)
    (done : B -> Device -> Prop) (c : async A) (k : A -> async B) (d : Device) :
  settles failed mid c d ->
  (forall a d', mid a d' -> settles failed done (k a) d') ->
  settles failed done (await c k) d.
Proof.
  unfold settles, await. destruct (c d) as [[a|message] d']; intros H1 H2.
  - exact (H2 _ _ H1).
  - exact H1.
Qed.

Lemma settles_native {A} (failed : Device -> Prop) (done : A -> Device -> Prop)
    (op : gmap string string -> A * gmap string string) (d : Device) :
  (forall message, hd None (faults d) = Some message ->
                   failed (mkDevice (items d) (tl (faults d)) (draws d))) ->
  (hd None (faults d) = None ->
   done (fst (op (items d)))
        (mkDevice (snd (op (items d))) (tl (faults d)) (draws d))) ->
  settles failed done (native op) d.
Proof.
  intros Hf Hd. unfold settles. pose proof (native_settles op d) as Hn.
  destruct (native op d) as [[a|message] d'].
  - destruct Hn as (H & -> & ->). auto.
  - destruct Hn as (H & ->). eauto.
Qed.

(** *** Garbage *)

Lemma charAt_chars (i : nat) :
  (i < String.length chars)%nat ->
  exists c, charAt chars i = String c ""
            /\ existsb (Ascii.eqb c) (list_ascii_of_string chars) = true.
Proof.
  assert (Hlen : String.length chars = 70%nat) by reflexivity.
  rewrite Hlen. intros H.
  do 70 (destruct i as [|i]; [eexists; split; reflexivity|]).
  lia.
Qed.

Lemma in_range_tl (d : Device) :
  in_range d -> in_range (mkDevice (items d) (faults d) (tl (draws d))).
Proof.
  unfold in_range. cbn [draws]. destruct (draws d); cbn [tl]; [auto|].
  now inversion 1.
Qed.

Lemma in_range_hd (d : Device) :
  in_range d -> (hd 0%nat (draws d) < String.length chars)%nat.
Proof.
  unfold in_range. destruct (draws d); cbn [hd].
  - intros _. apply Nat.ltb_lt. reflexivity.
  - now inversion 1.
Qed.

Lemma skipn_tl {A} (n : nat) (l : list A) : skipn n (tl l) = skipn (S n) l.
Proof. destruct l; [apply skipn_nil|reflexivity]. Qed.

Lemma garbage_loop_spec (n : nat) :
  forall (result : string) (d : Device),
    in_range d ->
    exists g,
      garbage_loop n result d
      = (Resolved (result ++ g)%string,
         mkDevice (items d) (faults d) (skipn n (draws d)))
      /\ String.length g = n
      /\ from_chars g = true
      /\ in_range (mkDevice (items d) (faults d) (skipn n (draws d))).
Proof.
  induction n as [|n IH]; intros result d Hd.
  - exists "". rewrite append_nil_r. destruct d. auto.
  - destruct (charAt_chars _ (in_range_hd d Hd)) as (c & Hc & Hin).
    destruct (IH (result ++ charAt chars (hd 0%nat (draws d)))%string _
                 (in_range_tl d Hd)) as (g & Hg & Hlen & Hfrom & Hr).
    cbn [items faults draws] in Hg, Hr. rewrite skipn_tl in Hg, Hr.
    exists (String c g). split; [|split; [|split]].
    + cbn [garbage_loop]. unfold await, random_index. rewrite Hg, Hc.
      rewrite append_assoc, ClockFacts.append_cons, ClockFacts.append_nil.
      reflexivity.
    + cbn. now rewrite Hlen.
    + unfold from_chars in *. cbn [list_ascii_of_string forallb].
      now rewrite Hin, Hfrom.
    + exact Hr.
Qed.

(** X17. With draws that are indices into the alphabet,
    [generateRandomGarbage] returns exactly [length] characters, all of
    them from the seventy of [chars], uses up [length] draws and touches
    neither the keychain nor the calls to come. *)
Theorem generateRandomGarbage_length (length : nat) (d : Device) :
  in_range d ->
  exists g,
    generateRandomGarbage length d
    = (Resolved g, mkDevice (items d) (faults d) (skipn length (draws d)))
    /\ String.length g = length
    /\ from_chars g = true.
Proof.
  intros Hd.
  destruct (garbage_loop_spec length "" d Hd) as (g & Hg & Hlen & Hfrom & _).
  exists g. rewrite ClockFacts.append_nil in Hg. auto.
Qed.

(** *** Keys and values that are not non-empty strings *)

(** X18. A key that is not a non-empty string is refused by every function
    before [SecureStore] is called: each rejects with its own prefix in
    front of the message, [hasToken] answers [false], and the device is as
    it was. [saveToken] refuses such a value in the same way. *)
Theorem invalid_key_is_refused_before_any_call (key value : value) (d : Device) :
  not_a_nonempty_string key = true ->
  saveToken key value d
  = (Rejected "Failed to save token: Key must be a non-empty string", d)
  /\ getToken key d
     = (Rejected "Failed to retrieve token: Key must be a non-empty string", d)
  /\ deleteToken key d
     = (Rejected "Failed to delete token: Key must be a non-empty string", d)
  /\ secureDeleteToken key d
     = (Rejected "Failed to securely delete token: Key must be a non-empty string", d)
  /\ hasToken key d = (Resolved false, d)
  /\ (forall k, k <> "" ->
        saveToken (VStr k) key d
        = (Rejected "Failed to save token: Value must be a non-empty string", d)).
Proof.
  intros H.
  assert (Hget : getToken key d
    = (Rejected "Failed to retrieve token: Key must be a non-empty string", d)).
  { unfold getToken, try_catch. rewrite H. reflexivity. }
  repeat split.
  - unfold saveToken, try_catch. rewrite H. reflexivity.
  - exact Hget.
  - unfold deleteToken, try_catch. rewrite H. reflexivity.
  - unfold secureDeleteToken, try_catch. rewrite H. reflexivity.
  - unfold hasToken, try_catch, await. rewrite Hget. reflexivity.
  - intros k Hk. unfold saveToken, try_catch. rewrite (valid_key k Hk), H.
    reflexivity.
Qed.

(** *** One call at a time *)

Lemma saveToken_valid (k v : string) (d : Device) :
  k <> "" -> v <> "" ->
  saveToken (VStr k) (VStr v) d
  = try_catch (setItemAsync k v)
      (fun message => throw ("Failed to save token: " ++ message)) d.
Proof.
  intros Hk Hv. unfold saveToken, try_catch.
  now rewrite (valid_key k Hk), (valid_key v Hv).
Qed.

Lemma getToken_valid (k : string) (d : Device) :
  k <> "" ->
  getToken (VStr k) d
  = match hd None (faults d) with
    | Some message =>
        (Rejected ("Failed to retrieve token: " ++ message),
         mkDevice (items d) (tl (faults d)) (draws d))
    | None =>
        (Resolved (match items d !! k with
                   | Some v => if negb (v =? "") then Some v else None
                   | None => None
                   end),
         mkDevice (items d) (tl (faults d)) (draws d))
    end.
Proof.
  intros Hk. unfold getToken, try_catch, await, getItemAsync.
  rewrite (valid_key k Hk). cbn [text_of].
  pose proof (native_settles (fun stored => (stored !! k, stored)) d) as Hn.
  destruct (native _ d) as [[a|message] d'].
  - destruct Hn as (-> & -> & ->). cbn [fst snd].
    destruct (items d !! k) as [v|]; [destruct (negb (v =? ""))|]; reflexivity.
  - destruct Hn as (-> & ->). reflexivity.
Qed.

Lemma hasToken_valid (k : string) (d : Device) :
  k <> "" ->
  hasToken (VStr k) d
  = (Resolved (match hd None (faults d), items d !! k with
               | None, Some v => negb (v =? "")
               | _, _ => false
               end),
     mkDevice (items d) (tl (faults d)) (draws d)).
Proof.
  intros Hk. unfold hasToken, try_catch, await. rewrite (getToken_valid k d Hk).
  destruct (hd None (faults d)) as [message|]; [reflexivity|].
  destruct (items d !! k) as [v|]; [destruct (negb (v =? ""))|]; reflexivity.
Qed.

(** X19. A token saved is the token read back: when the two calls to
    [SecureStore] go through, [saveToken] resolves, [getToken] on the same
    key then resolves with the value saved, [hasToken] answers [true], and
    the keychain is the old one with that one key set. *)
Theorem saveToken_then_getToken (k v : string) (d : Device) :
  k <> "" -> v <> "" -> goes_through 2 d ->
  exists d1 d2,
    saveToken (VStr k) (VStr v) d = (Resolved tt, d1)
    /\ getToken (VStr k) d1 = (Resolved (Some v), d2)
    /\ hasToken (VStr k) d1 = (Resolved true, d2)
    /\ items d2 = <[k := v]> (items d)
    /\ draws d2 = draws d.
Proof.
  intros Hk Hv Hd.
  assert (H1 : hd None (faults d) = None).
  { unfold goes_through in Hd. destruct (faults d) as [|f fs]; [reflexivity|].
    now inversion Hd. }
  assert (H2 : hd None (tl (faults d)) = None).
  { unfold goes_through in Hd. destruct (faults d) as [|f [|f' fs]]; try reflexivity.
    inversion Hd as [|? ? _ Hd']. now inversion Hd'. }
  eexists. eexists. split; [|split; [|split]].
  - rewrite (saveToken_valid k v d Hk Hv). unfold try_catch, setItemAsync.
    rewrite (native_through _ d H1). cbn [fst snd]. reflexivity.
  - rewrite (getToken_valid k _ Hk). cbn [faults items draws].
    rewrite H2, lookup_insert_eq, (nonempty_eqb v Hv). reflexivity.
  - rewrite (hasToken_valid k _ Hk). cbn [faults items draws].
    rewrite H2, lookup_insert_eq, (nonempty_eqb v Hv). reflexivity.
  - split; reflexivity.
Qed.

(** X20. [hasToken] never rejects and never changes the keychain. It
    answers [true] exactly when the key is a non-empty string, the call to
    [SecureStore] goes through and a non-empty value is stored under the
    key: its [false] also covers a keychain that could not be read. *)
Theorem hasToken_true_iff (key : value) (d : Device) :
  exists b d',
    hasToken key d = (Resolved b, d')
    /\ items d' = items d
    /\ (b = true
        <-> exists k v,
              key = VStr k /\ k <> "" /\ items d !! k = Some v /\ v <> ""
              /\ hd None (faults d) = None).
Proof.
  destruct (not_a_nonempty_string key) eqn:Hkey.
  - exists false, d. split; [|split; [reflexivity|]].
    + unfold hasToken, getToken, try_catch, await. rewrite Hkey. reflexivity.
    + split; [discriminate|]. intros (k & v & -> & Hk & _).
      rewrite (valid_key k Hk) in Hkey. discriminate.
  - destruct (valid_key_inv key Hkey) as (k & -> & Hk).
    rewrite (hasToken_valid k d Hk). eexists. eexists.
    split; [reflexivity|]. split; [reflexivity|].
    destruct (hd None (faults d)) as [message|] eqn:Hf.
    + split; [discriminate|]. intros (k' & v & _ & _ & _ & _ & H). discriminate.
    + destruct (items d !! k) as [v|] eqn:Hi.
      * destruct (v =? "") eqn:Hv; cbn [negb].
        -- split; [discriminate|]. intros (k' & v' & Hkk & _ & Hi' & Hv' & _).
           injection Hkk as <-. rewrite Hi in Hi'. injection Hi' as <-.
           apply String.eqb_eq in Hv. contradiction.
        -- split; [|reflexivity]. intros _. exists k, v.
           apply String.eqb_neq in Hv. auto.
      * split; [discriminate|]. intros (k' & v' & Hkk & _ & Hi' & _).
        injection Hkk as <-. rewrite Hi in Hi'. discriminate.
Qed.

(** X21. [saveToken], [getToken] and [deleteToken] fail cleanly: when one of
    them rejects, the keychain holds what it held, and the message is the
    function's prefix followed by the message of the cause. [getToken]
    changes nothing when it resolves either, and never resolves with the
    empty string. *)
Theorem single_call_functions_fail_cleanly (key value : value) (d : Device) :
  (forall message d',
     saveToken key value d = (Rejected message, d') ->
     items d' = items d
     /\ exists cause, message = ("Failed to save token: " ++ cause)%string)
  /\ (forall message d',
        deleteToken key d = (Rejected message, d') ->
        items d' = items d
        /\ exists cause, message = ("Failed to delete token: " ++ cause)%string)
  /\ (forall message d',
        getToken key d = (Rejected message, d') ->
        items d' = items d
        /\ exists cause, message = ("Failed to retrieve token: " ++ cause)%string)
  /\ (forall found d',
        getToken key d = (Resolved found, d') ->
        items d' = items d /\ found <> Some "").
Proof.
  split; [|split; [|split]].
  - intros message d'. unfold saveToken, try_catch.
    destruct (not_a_nonempty_string key);
      [intros H; injection H as <- <-; eauto|].
    destruct (not_a_nonempty_string value);
      [intros H; injection H as <- <-; eauto|].
    unfold setItemAsync.
    pose proof (native_settles
                  (fun stored => (tt, <[text_of key := text_of value]> stored)) d)
      as Hn.
    destruct (native _ d) as [[a|cause] d1]; [discriminate|].
    destruct Hn as (_ & ->). intros H. injection H as <- <-. eauto.
  - intros message d'. unfold deleteToken, try_catch, await.
    destruct (not_a_nonempty_string key);
      [intros H; injection H as <- <-; eauto|].
    unfold getItemAsync.
    pose proof (native_settles
                  (fun stored => (stored !! text_of key, stored)) d) as Hn.
    destruct (native _ d) as [[a|cause] d1].
    + destruct Hn as (_ & -> & ->). cbn [fst snd].
      assert (Hdel : forall out,
                 out = deleteItemAsync (text_of key)
                         (mkDevice (items d) (tl (faults d)) (draws d)) ->
                 match out with
                 | (Resolved _, d2) => True
                 | (Rejected cause, d2) => items d2 = items d
                 end).
      { intros out ->. unfold deleteItemAsync.
        pose proof (native_settles
                      (fun stored => (tt, delete (text_of key) stored))
                      (mkDevice (items d) (tl (faults d)) (draws d))) as Hn'.
        destruct (native _ _) as [[a|cause] d2]; [exact I|].
        now destruct Hn' as (_ & ->). }
      destruct (items d !! text_of key) as [v|];
        [destruct (negb (v =? ""))|]; try discriminate.
      specialize (Hdel _ eq_refl).
      destruct (deleteItemAsync _ _) as [[a|cause] d2]; [discriminate|].
      intros H. injection H as <- <-. eauto.
    + destruct Hn as (_ & ->). intros H. injection H as <- <-. eauto.
  - intros message d'. unfold getToken, try_catch, await.
    destruct (not_a_nonempty_string key);
      [intros H; injection H as <- <-; eauto|].
    unfold getItemAsync.
    pose proof (native_settles
                  (fun stored => (stored !! text_of key, stored)) d) as Hn.
    destruct (native _ d) as [[a|cause] d1].
    + destruct Hn as (_ & -> & ->). cbn [fst snd].
      destruct (items d !! text_of key) as [v|];
        [destruct (negb (v =? ""))|]; discriminate.
    + destruct Hn as (_ & ->). intros H. injection H as <- <-. eauto.
  - intros found d'. unfold getToken, try_catch, await.
    destruct (not_a_nonempty_string key); [discriminate|].
    unfold getItemAsync.
    pose proof (native_settles
                  (fun stored => (stored !! text_of key, stored)) d) as Hn.
    destruct (native _ d) as [[a|cause] d1]; [|discriminate].
    destruct Hn as (_ & -> & ->). cbn [fst snd].
    destruct (items d !! text_of key) as [v|];
      [destruct (v =? "") eqn:Hv|]; cbn [negb];
      intros H; injection H as <- <-; split; try reflexivity; try discriminate.
    intros Hs. injection Hs as ->. discriminate.
Qed.

(** *** Deletion *)

Lemma garbage_loop_total (n : nat) :
  forall (result : string) (d : Device),
    exists g,
      garbage_loop n result d
      = (Resolved g, mkDevice (items d) (faults d) (skipn n (draws d))).
Proof.
  induction n as [|n IH]; intros result d.
  - exists result. destruct d. reflexivity.
  - destruct (IH (result ++ charAt chars (hd 0%nat (draws d)))%string
                 (mkDevice (items d) (faults d) (tl (draws d)))) as (g & Hg).
    cbn [items faults draws] in Hg. rewrite skipn_tl in Hg.
    exists g. cbn [garbage_loop]. unfold await, random_index. exact Hg.
Qed.

Lemma settles_garbage_total (failed : Device -> Prop) (n : nat) (d : Device) :
  settles failed
    (fun _ d' => items d' = items d /\ faults d' = faults d)
    (generateRandomGarbage n) d.
Proof.
  unfold settles, generateRandomGarbage.
  destruct (garbage_loop_total n "" d) as (g & ->). auto.
Qed.

Lemma settles_garbage (failed : Device -> Prop) (n : nat) (d : Device) :
  in_range d ->
  settles failed
    (fun g d' => String.length g = n /\ from_chars g = true
                 /\ items d' = items d /\ faults d' = faults d /\ in_range d')
    (generateRandomGarbage n) d.
Proof.
  intros Hd. unfold settles, generateRandomGarbage.
  destruct (garbage_loop_spec n "" d Hd) as (g & Hg & Hlen & Hfrom & Hr).
  rewrite Hg, ClockFacts.append_nil. auto.
Qed.

Lemma fault_within (i n : nat) (fs : list (option string)) (message : string) :
  hd None (skipn i fs) = Some message -> (i < n)%nat ->
  ~ Forall (fun f => f = None) (firstn n fs).
Proof.
  revert n fs. induction i as [|i IH]; intros n fs Hf Hi H.
  - destruct n as [|n]; [lia|]. destruct fs as [|f fs]; [discriminate|].
    cbn in Hf, H. inversion H; congruence.
  - destruct n as [|n]; [lia|]. destruct fs as [|f fs]; [discriminate|].
    cbn in Hf, H. inversion H; subst. eapply (IH n fs); eauto. lia.
Qed.

Lemma tl_skipn {A} (i : nat) (l : list A) : tl (skipn i l) = skipn (S i) l.
Proof.
  revert l. induction i as [|i IH]; intros l.
  - now destruct l.
  - destruct l as [|x l]; [reflexivity|]. apply (IH l).
Qed.

Section SecureDelete.
Variables (k token : string) (d : Device).
Hypothesis Hk : k <> "".
Hypothesis Htoken : token <> "".
Hypothesis Hstored : items d !! k = Some token.

(** Where a rejected call leaves the device, and where the [i]th call
    that went through does. *)
Let failed (d' : Device) : Prop :=
  overwritten k token d' /\ others_kept k (items d) d' /\ ~ goes_through 5 d.
Let after (i : nat) (d' : Device) : Prop :=
  overwritten k token d' /\ others_kept k (items d) d'
  /\ faults d' = skipn i (faults d).

Lemma overwritten_start : overwritten k token d.
Proof. exists token. auto. Qed.

Lemma settles_setItemAsync (i : nat) (g : string) (d' : Device) :
  (i < 5)%nat -> after i d' ->
  String.length g = String.length token -> from_chars g = true ->
  settles failed (fun _ d'' => after (S i) d'') (setItemAsync k g) d'.
Proof.
  intros Hi (Ho & Hkept & Hf) Hlen Hfrom. apply settles_native.
  - intros message Hm. split; [exact Ho|]. split; [exact Hkept|].
    rewrite Hf in Hm. eapply fault_within; eauto.
  - intros _. cbn [fst snd]. split; [|split].
    + exists g. cbn [items]. rewrite lookup_insert_eq. auto.
    + intros key' Hne. cbn [items]. rewrite lookup_insert_ne by congruence.
      now apply Hkept.
    + cbn [faults]. now rewrite Hf, tl_skipn.
Qed.

Lemma settles_deleteItemAsync (i : nat) (d' : Device) :
  (i < 5)%nat -> after i d' ->
  settles failed
    (fun _ d'' => items d'' !! k = None /\ others_kept k (items d) d'')
    (deleteItemAsync k) d'.
Proof.
  intros Hi (Ho & Hkept & Hf). apply settles_native.
  - intros message Hm. split; [exact Ho|]. split; [exact Hkept|].
    rewrite Hf in Hm. eapply fault_within; eauto.
  - intros _. cbn [fst snd]. split.
    + cbn [items]. apply lookup_delete_eq.
    + intros key' Hne. cbn [items]. rewrite lookup_delete_ne by congruence.
      now apply Hkept.
Qed.

Lemma secureDeleteToken_settles :
  in_range d ->
  exists body,
    secureDeleteToken (VStr k) d
    = try_catch body
        (fun message => throw ("Failed to securely delete token: " ++ message)) d
    /\ settles failed
         (fun _ d' => items d' !! k = None /\ others_kept k (items d) d')
         body d.
Proof.
  intros Hd. unfold secureDeleteToken. rewrite (valid_key k Hk). cbn [text_of].
  eexists. split; [reflexivity|].
  eapply settles_await with
    (mid := fun a d' => a = Some token /\ after 1 d' /\ in_range d').
  { unfold getItemAsync. apply settles_native.
    - intros message Hm. split; [exact overwritten_start|].
      split; [intros key' _; reflexivity|].
      apply (fault_within 0 5 _ message); [exact Hm|lia].
    - intros _. cbn [fst snd]. split; [exact Hstored|]. split; [|exact Hd].
      split; [exact overwritten_start|]. split; [intros key' _; reflexivity|].
      cbn [faults]. now destruct (faults d). }
  intros a d1 (-> & H1 & Hr1).
  rewrite (nonempty_eqb token Htoken), (nonempty_length token Htoken). cbn [negb].
  eapply settles_await; [apply (settles_garbage failed _ d1 Hr1)|].
  intros g1 d2 (Hl1 & Hc1 & Hi2 & Hf2 & Hr2).
  eapply settles_await; [apply (settles_garbage failed _ d2 Hr2)|].
  intros g2 d3 (Hl2 & Hc2 & Hi3 & Hf3 & Hr3).
  eapply settles_await; [apply (settles_garbage failed _ d3 Hr3)|].
  intros g3 d4 (Hl3 & Hc3 & Hi4 & Hf4 & Hr4).
  assert (H4 : after 1 d4).
  { destruct H1 as ((g & Hg) & Hkept & Hf). split; [|split].
    - exists g. now rewrite Hi4, Hi3, Hi2.
    - intros key' Hne. rewrite Hi4, Hi3, Hi2. now apply Hkept.
    - now rewrite Hf4, Hf3, Hf2. }
  eapply settles_await; [apply (settles_setItemAsync 1 g1 d4); auto; lia|].
  intros [] d5 H5. cbn beta in H5.
  eapply settles_await; [apply (settles_setItemAsync 2 g2 d5); auto; lia|].
  intros [] d6 H6. cbn beta in H6.
  eapply settles_await; [apply (settles_setItemAsync 3 g3 d6); auto; lia|].
  intros [] d7 H7. cbn beta in H7.
  apply (settles_deleteItemAsync 4 d7); [lia|exact H7].
Qed.
End SecureDelete.

(** X22. [secureDeleteToken] on a key that holds a token, with draws that are
    indices into the alphabet: when its five calls to [SecureStore] go
    through it resolves and the key is gone; when one of them fails it
    rejects with its prefix in front of the cause, and the key then still
    holds the token or garbage of the token's length, which [hasToken]
    reports as a token. The other keys hold what they held in every
    case. *)
Theorem secureDeleteToken_deletes_or_leaves_a_value (k token : string)
    (d d' : Device) (outcome : settled unit) :
  k <> "" -> token <> "" -> items d !! k = Some token -> in_range d ->
  secureDeleteToken (VStr k) d = (outcome, d') ->
  others_kept k (items d) d'
  /\ match outcome with
     | Resolved _ => items d' !! k = None
     | Rejected message =>
         (exists cause,
            message = ("Failed to securely delete token: " ++ cause)%string)
         /\ overwritten k token d'
         /\ (hd None (faults d') = None ->
             fst (hasToken (VStr k) d') = Resolved true)
     end
  /\ (goes_through 5 d -> outcome = Resolved tt).
Proof.
  intros Hk Htoken Hstored Hd Hrun.
  destruct (secureDeleteToken_settles k token d Hk Htoken Hstored Hd)
    as (body & Heq & Hs).
  rewrite Heq in Hrun. unfold try_catch, settles in *.
  destruct (body d) as [[[]|cause] d1].
  - injection Hrun as <- <-. destruct Hs as [Hnone Hkept]. auto.
  - injection Hrun as <- <-. destruct Hs as (Ho & Hkept & Hfault).
    split; [exact Hkept|]. split; [|intros H; contradiction].
    split; [eauto|]. split; [exact Ho|].
    intros Hf. rewrite (hasToken_valid k d1 Hk), Hf.
    destruct Ho as (g & -> & Hlen & _). cbn [fst].
    destruct g; [destruct token; [congruence|discriminate]|reflexivity].
Qed.

(** X23. Once [deleteToken] or [secureDeleteToken] has resolved, nothing
    [getToken] would return is stored under the key: [hasToken] answers
    [false], [getToken] resolves with [null] if it resolves, and the other
    keys hold what they held. *)
Theorem deleted_token_is_gone (k : string) (d d' : Device) :
  k <> "" ->
  deleteToken (VStr k) d = (Resolved tt, d')
  \/ secureDeleteToken (VStr k) d = (Resolved tt, d') ->
  gone k d'
  /\ others_kept k (items d) d'
  /\ fst (hasToken (VStr k) d') = Resolved false
  /\ (forall found d'', getToken (VStr k) d' = (Resolved found, d'') -> found = None).
Proof.
  intros Hk Hrun.
  assert (H : gone k d' /\ others_kept k (items d) d').
  { assert (Hs : forall body : async unit,
               settles (fun _ => True)
                 (fun _ d'' => gone k d'' /\ others_kept k (items d) d'') body d ->
               forall handler,
                 try_catch body (fun message => throw (handler message)) d
                 = (Resolved tt, d') ->
                 gone k d' /\ others_kept k (items d) d').
    { intros body Hb handler. unfold try_catch, settles, throw in *.
      destruct (body d) as [[[]|cause] d1]; [|discriminate].
      intros Hr. injection Hr as <-. exact Hb. }
    assert (Hget : settles (fun _ => True)
                     (fun a d'' => a = items d !! k /\ items d'' = items d)
                     (getItemAsync k) d).
    { apply settles_native; auto. }
    assert (Hdel : forall d1, items d1 = items d ->
               settles (fun _ => True)
                 (fun _ d'' => gone k d'' /\ others_kept k (items d) d'')
                 (deleteItemAsync k) d1).
    { intros d1 Hi. apply settles_native; [auto|]. intros _. cbn [fst snd]. split.
      - left. cbn [items]. apply lookup_delete_eq.
      - intros key' Hne. cbn [items]. rewrite lookup_delete_ne by congruence.
        now rewrite Hi. }
    assert (Hset : forall g d1 (mid : unit -> Device -> Prop),
               (forall d2, others_kept k (items d) d2 -> mid tt d2) ->
               others_kept k (items d) d1 ->
               settles (fun _ => True) mid (setItemAsync k g) d1).
    { intros g d1 mid Hmid Hkept. apply settles_native; [auto|]. intros _.
      cbn [fst snd]. apply Hmid. intros key' Hne. cbn [items].
      rewrite lookup_insert_ne by congruence. now apply Hkept. }
    assert (Hdel' : forall d1, others_kept k (items d) d1 ->
               settles (fun _ => True)
                 (fun _ d'' => gone k d'' /\ others_kept k (items d) d'')
                 (deleteItemAsync k) d1).
    { intros d1 Hkept. apply settles_native; [auto|]. intros _. cbn [fst snd]. split.
      - left. cbn [items]. apply lookup_delete_eq.
      - intros key' Hne. cbn [items]. rewrite lookup_delete_ne by congruence.
        now apply Hkept. }
    destruct Hrun as [Hrun|Hrun].
    - unfold deleteToken in Hrun. rewrite (valid_key k Hk) in Hrun.
      cbn [text_of] in Hrun. eapply Hs; [|exact Hrun].
      eapply settles_await; [exact Hget|].
      intros a d1 (-> & Hi). cbn beta.
      destruct (items d !! k) as [v|] eqn:Hv.
      + destruct (v =? "") eqn:He; cbn [negb].
        * apply String.eqb_eq in He as ->. unfold settles, resolve. split.
          -- right. now rewrite Hi.
          -- intros key' _. now rewrite Hi.
        * now apply Hdel.
      + unfold settles, resolve. split.
        * left. now rewrite Hi.
        * intros key' _. now rewrite Hi.
    - unfold secureDeleteToken in Hrun. rewrite (valid_key k Hk) in Hrun.
      cbn [text_of] in Hrun. eapply Hs; [|exact Hrun].
      eapply settles_await; [exact Hget|].
      intros a d1 (-> & Hi). cbn beta.
      destruct (items d !! k) as [v|] eqn:Hv.
      + destruct (v =? "") eqn:He; cbn [negb].
        * apply String.eqb_eq in He as ->. unfold settles, resolve. split.
          -- right. now rewrite Hi.
          -- intros key' _. now rewrite Hi.
        * eapply settles_await; [apply settles_garbage_total|].
          intros g1 d2 (Hi2 & _). cbn beta in Hi2.
          eapply settles_await; [apply settles_garbage_total|].
          intros g2 d3 (Hi3 & _). cbn beta in Hi3.
          eapply settles_await; [apply settles_garbage_total|].
          intros g3 d4 (Hi4 & _). cbn beta in Hi4.
          eapply settles_await
            with (mid := fun _ d'' => others_kept k (items d) d'').
          { apply Hset; [auto|]. intros key' _. now rewrite Hi4, Hi3, Hi2, Hi. }
          intros [] d5 H5.
          eapply settles_await
            with (mid := fun _ d'' => others_kept k (items d) d'').
          { apply Hset; auto. }
          intros [] d6 H6.
          eapply settles_await
            with (mid := fun _ d'' => others_kept k (items d) d'').
          { apply Hset; auto. }
          intros [] d7 H7. now apply Hdel'.
      + unfold settles, resolve. split.
        * left. now rewrite Hi.
        * intros key' _. now rewrite Hi. }
  destruct H as [Hgone Hkept]. split; [exact Hgone|]. split; [exact Hkept|].
  split.
  - rewrite (hasToken_valid k d' Hk). cbn [fst].
    destruct (hd None (faults d')); [reflexivity|].
    destruct Hgone as [-> | ->]; reflexivity.
  - intros found d''. rewrite (getToken_valid k d' Hk).
    destruct (hd None (faults d')); [discriminate|].
    intros H. injection H as <- _.
    destruct Hgone as [-> | ->]; reflexivity.
Qed.

(** *** On the sample keychains *)

Lemma generateRandomGarbage_length_witness :
  generateRandomGarbage 4 healthy
  = (Resolved "D*Mo", mkDevice keychain [] [7%nat])
  /\ exists g,
       generateRandomGarbage 7 healthy
       = (Resolved g, mkDevice keychain [] []) /\ String.length g = 7%nat.
Proof.
  split; [reflexivity|].
  destruct (generateRandomGarbage_length 7 healthy) as (g & Hg & Hlen & _).
  - repeat constructor.
  - exists g. split; [exact Hg|exact Hlen].
Defined.

Lemma invalid_key_is_refused_before_any_call_witness :
  saveToken (VStr "") (VStr "secret") failing
  = (Rejected "Failed to save token: Key must be a non-empty string", failing)
  /\ hasToken (VNum 7) failing = (Resolved false, failing).
Proof.
  split.
  - apply (invalid_key_is_refused_before_any_call (VStr "") (VStr "secret") failing).
    reflexivity.
  - apply (invalid_key_is_refused_before_any_call (VNum 7) VNull failing).
    reflexivity.
Defined.

Lemma saveToken_then_getToken_witness :
  exists d1 d2,
    saveToken (VStr "refreshToken") (VStr "r-1") healthy = (Resolved tt, d1)
    /\ getToken (VStr "refreshToken") d1 = (Resolved (Some "r-1"), d2).
Proof.
  destruct (saveToken_then_getToken "refreshToken" "r-1" healthy)
    as (d1 & d2 & H1 & H2 & _).
  - discriminate.
  - discriminate.
  - constructor.
  - exists d1, d2. split; [exact H1|exact H2].
Defined.

Lemma secureDeleteToken_deletes_or_leaves_a_value_witness :
  secureDeleteToken (VStr "authToken") failing
  = (Rejected "Failed to securely delete token: keychain locked",
     mkDevice (<["authToken" := "AAAAAAAAAA"]> keychain) [] [])
  /\ overwritten "authToken" "eyJhbGciOi"
       (mkDevice (<["authToken" := "AAAAAAAAAA"]> keychain) [] [])
  /\ fst (hasToken (VStr "authToken")
            (mkDevice (<["authToken" := "AAAAAAAAAA"]> keychain) [] []))
     = Resolved true.
Proof.
  assert (Hrun : secureDeleteToken (VStr "authToken") failing
                 = (Rejected "Failed to securely delete token: keychain locked",
                    mkDevice (<["authToken" := "AAAAAAAAAA"]> keychain) [] [])).
  { vm_compute. reflexivity. }
  split; [exact Hrun|].
  destruct (secureDeleteToken_deletes_or_leaves_a_value
              "authToken" "eyJhbGciOi" failing _ _
              ltac:(discriminate) ltac:(discriminate) eq_refl
              ltac:(constructor) Hrun)
    as (_ & (_ & Ho & Hhas) & _).
  split; [exact Ho|]. apply Hhas. reflexivity.
Defined.

Lemma deleted_token_is_gone_witness :
  exists d',
    deleteToken (VStr "apiKey") healthy = (Resolved tt, d')
    /\ fst (hasToken (VStr "apiKey") d') = Resolved false
    /\ items d' !! "authToken" = Some "eyJhbGciOi".
Proof.
  assert (Hrun : deleteToken (VStr "apiKey") healthy
                 = (Resolved tt,
                    mkDevice (delete "apiKey" keychain) [] [3; 69; 12; 40; 7]%nat)).
  { vm_compute. reflexivity. }
  eexists. split; [exact Hrun|].
  destruct (deleted_token_is_gone "apiKey" healthy _ ltac:(discriminate)
              (or_introl Hrun))
    as (_ & Hkept & Hhas & _).
  split; [exact Hhas|]. rewrite (Hkept "authToken"); [reflexivity|discriminate].
Defined.

End StorageFacts.
